(** * Redshift adapter metadata mappers

    A shallow embedding of
    [odd_collector/adapters/redshift/mappers/metadata.py]: the three
    lockstep aligners ([MetadataSchemas], [MetadataTables],
    [MetadataColumns]), the [dependencies] property of [MetadataTable]
    and the projection helper [_append_metadata_extension].

    Python values are modelled by [pyval], exceptions by the error monad
    [result], positional rows by lists of values, dataclass instances by
    their fields in declaration order, and the dictionary built by
    [asdict] by a [gmap]. *)

From Stdlib Require Import Ascii String.
From stdpp Require Import base option list strings gmap fin_maps.

(** ** Python values *)

(** The scalar values a catalog row carries. *)
Inductive pyval : Type :=
  | PNone
  | PBool (b : bool)
  | PInt (z : Z)
  | PStr (s : string).

#[global] Instance pyval_eq_dec : EqDecision pyval.
Proof. solve_decision. Defined.

(** Python compares [bool] as the integers 0 and 1; [canon] picks the
    representative of a value's [==] class. *)
Definition canon (v : pyval) : pyval :=
  match v with
  | PBool b => PInt (if b then 1 else 0)%Z
  | _ => v
  end.

(** [a == b] *)
Definition py_eq (a b : pyval) : bool := bool_decide (canon a = canon b).

(** [bool(v)] *)
Definition truthy (v : pyval) : bool :=
  match v with
  | PNone => false
  | PBool b => b
  | PInt z => negb (Z.eqb z 0)
  | PStr s => negb (String.eqb s EmptyString)
  end.

(** [v is not None] *)
Definition is_not_none (v : pyval) : bool :=
  match v with
  | PNone => false
  | _ => true
  end.

(** ** Exceptions *)

Inductive exn : Type :=
  | TypeError
  | AttributeError
  | IndexError
  | ValueError
  | KeyError (key : string)
  | ParserError (msg : string)
  | ValidationError.

#[global] Instance exn_eq_dec : EqDecision exn.
Proof. solve_decision. Defined.

Inductive result (A : Type) : Type :=
  | Ok (a : A)
  | Raise (e : exn).
Arguments Ok {A} a.
Arguments Raise {A} e.

#[global] Instance result_ret : MRet result := fun A a => Ok a.
#[global] Instance result_bind : MBind result := fun A B f r =>
  match r with
  | Ok a => f a
  | Raise e => Raise e
  end.

Definition is_ok {A} (r : result A) : bool :=
  match r with
  | Ok _ => true
  | Raise _ => false
  end.

(** [for x in l: s = body(s, x)], stopping at the first exception. *)
Fixpoint for_each {A S : Type} (body : S -> A -> result S) (l : list A) (s : S)
  : result S :=
  match l with
  | [] => Ok s
  | x :: l' => s' ← body s x; for_each body l' s'
  end.

(** ** Rows and dataclasses *)

(** A positional query-result row. *)
Definition tuple : Type := list pyval.

(** A dataclass declaration is the list of its field names, and an
    instance the field values in declaration order. *)
Definition dataclass : Type := list string.
Definition instance : Type := list (string * pyval).

(** [Cls] applied to a star-unpacked row.  The classes of
    [mappers/models.py] declare their fields without defaults, so the
    generated [__init__] takes one positional argument per field and
    raises [TypeError] on any other arity. *)
Definition construct (cls : dataclass) (row : tuple) : result instance :=
  if bool_decide (length row = length cls) then Ok (zip cls row)
  else Raise TypeError.

(** [obj.name] *)
Fixpoint getattr (obj : instance) (name : string) : result pyval :=
  match obj with
  | [] => Raise AttributeError
  | (f, v) :: obj' => if String.eqb f name then Ok v else getattr obj' name
  end.

(** [asdict(obj)] *)
Definition asdict (obj : instance) : gmap string pyval :=
  foldl (fun d fv => <[fv.1 := fv.2]> d) ∅ obj.

(** The field shapes declared in [mappers/models.py], one per object
    kind and source. *)
Record models : Type := {
  MetadataSchemaBase : dataclass;
  MetadataSchemaRedshift : dataclass;
  MetadataSchemaExternal : dataclass;
  MetadataTableBase : dataclass;
  MetadataTableAll : dataclass;
  MetadataTableRedshift : dataclass;
  MetadataTableExternal : dataclass;
  MetadataTableInfo : dataclass;
  MetadataColumnBase : dataclass;
  MetadataColumnRedshift : dataclass;
  MetadataColumnExternal : dataclass;
}.

(** ** Merged objects *)

Record Dependency : Type := {
  dep_name : string;
  dep_schema : string;
}.

Definition uid (d : Dependency) : string :=
  dep_schema d +:+ "." +:+ dep_name d.

Record MetadataSchema : Type := {
  s_database_name : pyval;
  s_schema_name : pyval;
  s_base : option instance;
  s_redshift : option instance;
  s_external : option instance;
}.

Record MetadataColumn : Type := {
  c_database_name : pyval;
  c_schema_name : pyval;
  c_table_name : pyval;
  c_column_name : pyval;
  c_ordinal_position : pyval;
  c_base : option instance;
  c_redshift : option instance;
  c_external : option instance;
}.

Record MetadataTable : Type := {
  t_database_name : pyval;
  t_schema_name : pyval;
  t_table_name : pyval;
  t_base : option instance;
  t_all : option instance;
  t_redshift : option instance;
  t_external : option instance;
  t_info : option instance;
  t_columns : list MetadataColumn;
  t_primary_keys : list string;
}.

(** ** The aligners *)

(** The [and]-chain of one auxiliary probe: each conjunct reads a field
    of the decoded row and compares it with a canonical field of [m];
    later conjuncts are evaluated only when the earlier ones hold. *)
Fixpoint keys_match (r : instance) (key : list (string * pyval)) : result bool :=
  match key with
  | [] => Ok true
  | (f, k) :: key' =>
      v ← getattr r f;
      if py_eq v k then keys_match r key' else Ok false
  end.

(** One auxiliary block of a loop body:
    [if index < len(rows): r = Cls(rows[index]...); if <keys equal>:
     m.slot = r; index += 1].  Returns the slot and the cursor. *)
Definition attach (cls : dataclass) (rows : list tuple) (index : nat)
    (key : list (string * pyval)) : result (option instance * nat) :=
  match rows !! index with
  | None => Ok (None, index)
  | Some row =>
      r ← construct cls row;
      b ← keys_match r key;
      if b : bool then Ok (Some r, S index) else Ok (None, index)
  end.

(** Loop state of [MetadataSchemas.__init__]. *)
Record schemas_state : Type := {
  ss_ms : list MetadataSchema;
  ss_redshift_index : nat;
  ss_external_index : nat;
}.

(** Loop state of [MetadataTables.__init__]. *)
Record tables_state : Type := {
  ts_ms : list MetadataTable;
  ts_all_index : nat;
  ts_redshift_index : nat;
  ts_external_index : nat;
  ts_info_index : nat;
}.

(** Loop state of [MetadataColumns.__init__]. *)
Record columns_state : Type := {
  cs_ms : list MetadataColumn;
  cs_redshift_index : nat;
  cs_external_index : nat;
}.

Section Aligners.

Variable M : models.

(** Body of [for schema in schemas_base].  The object [m] is appended to
    [ms] before its fields are assigned; since the list holds a reference
    to it, the list ends up with the completed object, and an exception
    leaves the function before [self.items] is assigned. *)
Definition schemas_body (schemas_redshift schemas_external : list tuple)
    (st : schemas_state) (schema : tuple) : result schemas_state :=
  base ← construct (MetadataSchemaBase M) schema;
  database_name ← getattr base "database_name";
  schema_name ← getattr base "schema_name";
  '(redshift, redshift_index) ←
    attach (MetadataSchemaRedshift M) schemas_redshift (ss_redshift_index st)
      [("database_name", database_name); ("schema_name", schema_name)];
  '(external, external_index) ←
    attach (MetadataSchemaExternal M) schemas_external (ss_external_index st)
      [("databasename", database_name); ("schemaname", schema_name)];
  Ok {| ss_ms := ss_ms st ++ [ {| s_database_name := database_name;
                                  s_schema_name := schema_name;
                                  s_base := Some base;
                                  s_redshift := redshift;
                                  s_external := external |} ];
        ss_redshift_index := redshift_index;
        ss_external_index := external_index |}.

Definition schemas_init : schemas_state :=
  {| ss_ms := []; ss_redshift_index := 0; ss_external_index := 0 |}.

Definition schemas_loop (schemas_base schemas_redshift schemas_external : list tuple)
  : result schemas_state :=
  for_each (schemas_body schemas_redshift schemas_external) schemas_base schemas_init.

(** [MetadataSchemas(schemas_base, schemas_redshift, schemas_external).items] *)
Definition MetadataSchemas (schemas_base schemas_redshift schemas_external : list tuple)
  : result (list MetadataSchema) :=
  st ← schemas_loop schemas_base schemas_redshift schemas_external;
  Ok (ss_ms st).

(** Body of [for table in tables_base]. *)
Definition tables_body (tables_all tables_redshift tables_external tables_info : list tuple)
    (st : tables_state) (table : tuple) : result tables_state :=
  base ← construct (MetadataTableBase M) table;
  database_name ← getattr base "table_catalog";
  schema_name ← getattr base "table_schema";
  table_name ← getattr base "table_name";
  '(all, all_index) ←
    attach (MetadataTableAll M) tables_all (ts_all_index st)
      [("database_name", database_name); ("schema_name", schema_name);
       ("table_name", table_name)];
  '(redshift, redshift_index) ←
    attach (MetadataTableRedshift M) tables_redshift (ts_redshift_index st)
      [("database_name", database_name); ("schema_name", schema_name);
       ("table_name", table_name)];
  '(external, external_index) ←
    attach (MetadataTableExternal M) tables_external (ts_external_index st)
      [("databasename", database_name); ("schemaname", schema_name);
       ("tablename", table_name)];
  '(info, info_index) ←
    attach (MetadataTableInfo M) tables_info (ts_info_index st)
      [("database", database_name); ("schema", schema_name);
       ("table", table_name)];
  Ok {| ts_ms := ts_ms st ++ [ {| t_database_name := database_name;
                                  t_schema_name := schema_name;
                                  t_table_name := table_name;
                                  t_base := Some base;
                                  t_all := all;
                                  t_redshift := redshift;
                                  t_external := external;
                                  t_info := info;
                                  t_columns := [];
                                  t_primary_keys := [] |} ];
        ts_all_index := all_index;
        ts_redshift_index := redshift_index;
        ts_external_index := external_index;
        ts_info_index := info_index |}.

Definition tables_init : tables_state :=
  {| ts_ms := []; ts_all_index := 0; ts_redshift_index := 0;
     ts_external_index := 0; ts_info_index := 0 |}.

Definition tables_loop
    (tables_base tables_all tables_redshift tables_external tables_info : list tuple)
  : result tables_state :=
  for_each (tables_body tables_all tables_redshift tables_external tables_info)
    tables_base tables_init.

(** [MetadataTables(tables_base, tables_all, tables_redshift,
    tables_external, tables_info).items] *)
Definition MetadataTables
    (tables_base tables_all tables_redshift tables_external tables_info : list tuple)
  : result (list MetadataTable) :=
  st ← tables_loop tables_base tables_all tables_redshift tables_external tables_info;
  Ok (ts_ms st).

(** Body of [for column in columns]. *)
Definition columns_body (columns_redshift columns_external : list tuple)
    (st : columns_state) (column : tuple) : result columns_state :=
  base ← construct (MetadataColumnBase M) column;
  database_name ← getattr base "database_name";
  schema_name ← getattr base "schema_name";
  table_name ← getattr base "table_name";
  column_name ← getattr base "column_name";
  ordinal_position ← getattr base "ordinal_position";
  '(redshift, redshift_index) ←
    attach (MetadataColumnRedshift M) columns_redshift (cs_redshift_index st)
      [("database_name", database_name); ("schema_name", schema_name);
       ("table_name", table_name); ("ordinal_position", ordinal_position)];
  '(external, external_index) ←
    attach (MetadataColumnExternal M) columns_external (cs_external_index st)
      [("databasename", database_name); ("schemaname", schema_name);
       ("tablename", table_name); ("columnnum", ordinal_position)];
  Ok {| cs_ms := cs_ms st ++ [ {| c_database_name := database_name;
                                  c_schema_name := schema_name;
                                  c_table_name := table_name;
                                  c_column_name := column_name;
                                  c_ordinal_position := ordinal_position;
                                  c_base := Some base;
                                  c_redshift := redshift;
                                  c_external := external |} ];
        cs_redshift_index := redshift_index;
        cs_external_index := external_index |}.

Definition columns_init : columns_state :=
  {| cs_ms := []; cs_redshift_index := 0; cs_external_index := 0 |}.

Definition columns_loop (columns columns_redshift columns_external : list tuple)
  : result columns_state :=
  for_each (columns_body columns_redshift columns_external) columns columns_init.

(** [MetadataColumns(columns, columns_redshift, columns_external).items] *)
Definition MetadataColumns (columns columns_redshift columns_external : list tuple)
  : result (list MetadataColumn) :=
  st ← columns_loop columns columns_redshift columns_external;
  Ok (cs_ms st).

End Aligners.

(** ** Dependency extraction *)

(** [s.replace(c, empty)] for a one-character [c] *)
Fixpoint remove_char (c : Ascii.ascii) (s : string) : string :=
  match s with
  | EmptyString => EmptyString
  | String a s' =>
      if Ascii.eqb a c then remove_char c s' else String a (remove_char c s')
  end.

(** [s.split(c)] for a one-character separator [c] *)
Fixpoint split (c : Ascii.ascii) (s : string) : list string :=
  match s with
  | EmptyString => [EmptyString]
  | String a s' =>
      if Ascii.eqb a c then EmptyString :: split c s'
      else match split c s' with
           | [] => [String a EmptyString]
           | h :: t => String a h :: t
           end
  end.

(** What the logger receives. *)
Inductive log_entry : Type :=
  | LogWarning (msg : string)
  | LogException (view_ddl : pyval) (e : exn).

(** [v.replace] of "(" and then of ")" by the empty string: only [str]
    has [replace]. *)
Definition strip_parens (v : pyval) : result string :=
  match v with
  | PStr s => Ok (remove_char ")"%char (remove_char "("%char s))
  | _ => Raise AttributeError
  end.

(** [self.all.view_ddl] *)
Definition self_all_view_ddl (m : MetadataTable) : result pyval :=
  match t_all m with
  | None => Raise AttributeError
  | Some all => getattr all "view_ddl"
  end.

(** [schema, name = schema_name] *)
Definition unpack2 (l : list string) : result (string * string) :=
  match l with
  | [schema; name] => Ok (schema, name)
  | _ => Raise ValueError
  end.

(** [schema_name[0]] *)
Definition index0 (l : list string) : result string :=
  match l !! 0 with
  | Some x => Ok x
  | None => Raise IndexError
  end.

Definition warning_msg (table : string) : string :=
  "Couldn't parse schema and name from " +:+ table +:+
  ". Must be in format <schema>.<table> or <table>.".

(** [for table in parsed.tables], threading the list being built and the
    log. *)
Fixpoint dependencies_loop (tables : list string) (dependencies : list Dependency)
    (log : list log_entry) : result (list Dependency) * list log_entry :=
  match tables with
  | [] => (Ok dependencies, log)
  | table :: rest =>
      let schema_name := split "."%char table in
      if bool_decide (2 < length schema_name) then
        dependencies_loop rest dependencies (log ++ [LogWarning (warning_msg table)])
      else
        match (if bool_decide (length schema_name = 2) then unpack2 schema_name
               else name ← index0 schema_name; Ok ("public", name)) with
        | Ok (schema, name) =>
            dependencies_loop rest
              (dependencies ++ [ {| dep_name := name; dep_schema := schema |} ]) log
        | Raise e => (Raise e, log)
        end
  end.

Section Dependencies.

(** [Parser(sql).tables] of the [sql_metadata] package: the table
    identifiers the statement refers to, or an exception. *)
Variable Parser_tables : string -> result (list string).

(** The [try] block of [MetadataTable.dependencies]. *)
Definition dependencies_try (m : MetadataTable)
  : result (list Dependency) * list log_entry :=
  match self_all_view_ddl m with
  | Raise e => (Raise e, [])
  | Ok view_ddl =>
      if negb (truthy view_ddl) then (Ok [], [])
      else
        match (sql ← strip_parens view_ddl; Parser_tables sql) with
        | Raise e => (Raise e, [])
        | Ok tables => dependencies_loop tables [] []
        end
  end.

(** [MetadataTable.dependencies]: the [except Exception] handler formats
    [self.all.view_ddl] into its message before it returns [[]]. *)
Definition dependencies (m : MetadataTable)
  : result (list Dependency) * list log_entry :=
  match dependencies_try m with
  | (Ok ds, log) => (Ok ds, log)
  | (Raise e, log) =>
      match self_all_view_ddl m with
      | Ok view_ddl => (Ok [], log ++ [LogException view_ddl e])
      | Raise e' => (Raise e', log)
      end
  end.

End Dependencies.

(** ** Metadata projection *)

(** [d.pop(key)] with no default *)
Definition pop (d : gmap string pyval) (key : string) : result (gmap string pyval) :=
  match d !! key with
  | Some _ => Ok (delete key d)
  | None => Raise (KeyError key)
  end.

(** [for key, value in metadata.items(): if value is not None:
    metadata_wo_none[key] = value] *)
Definition wo_none (metadata : gmap string pyval) : gmap string pyval :=
  foldl (fun d kv => if is_not_none kv.2 then <[kv.1 := kv.2]> d else d)
    ∅ (map_to_list metadata).

Section Projection.

(** The objects of the class [MetadataExtension] of the [odd_models]
    package, and the call [MetadataExtension(schema_url=..., metadata=...)]:
    the class is a validating model, so the call either builds an object
    or raises. *)
Context {Extension : Type}.
Variable MetadataExtension : string -> gmap string pyval -> result Extension.

(** [_append_metadata_extension(metadata_list, schema_url,
    metadata_dataclass, excluded_keys)]: the list after the call and the
    outcome of the call.  A dataclass instance is truthy, so the test
    [if metadata_dataclass] is the test against [None]; the keys of the
    set are visited in some order without repetition; the argument of
    [append] is evaluated first, so an exception of the constructor
    leaves the list as it was; the only mutation of [metadata_list] is
    the final [append]. *)
Definition _append_metadata_extension (metadata_list : list Extension)
    (schema_url : string) (metadata_dataclass : option instance)
    (excluded_keys : option (gset string))
  : list Extension * result unit :=
  match metadata_dataclass with
  | None => (metadata_list, Ok ())
  | Some obj =>
      match (match excluded_keys with
             | Some keys => for_each pop (elements keys) (asdict obj)
             | None => Ok (asdict obj)
             end) with
      | Raise e => (metadata_list, Raise e)
      | Ok metadata =>
          match MetadataExtension schema_url (wo_none metadata) with
          | Raise e => (metadata_list, Raise e)
          | Ok extension => (metadata_list ++ [extension], Ok ())
          end
      end
  end.

End Projection.

(** ** Notions used to state the properties *)

(** Reading several fields of one instance, left to right. *)
Fixpoint getattrs (obj : instance) (names : list string) : result (list pyval) :=
  match names with
  | [] => Ok []
  | f :: names' => v ← getattr obj f; vs ← getattrs obj names'; Ok (v :: vs)
  end.

(** The identity key a row carries for the class [cls], read through
    the key field names [names] of that class, up to [==]. *)
Definition row_key (cls : dataclass) (names : list string) (row : tuple)
  : result (list pyval) :=
  r ← construct cls row; vs ← getattrs r names; Ok (canon <$> (vs : list pyval)).

(** A row is well formed for a class when it decodes into it and exposes
    the key fields. *)
Definition wf_row (cls : dataclass) (names : list string) (row : tuple) : bool :=
  is_ok (row_key cls names row).

Definition wf_rows (cls : dataclass) (names : list string) (rows : list tuple) : bool :=
  forallb (wf_row cls names) rows.

(** The identity keys of a list of rows, in order. *)
Definition row_keys (cls : dataclass) (names : list string) (rows : list tuple)
  : list (list pyval) :=
  (fun row => match row_key cls names row with
              | Ok k => k
              | Raise _ => []
              end) <$> rows.

(** Key field names of each source, as the loops read them. *)
Definition schema_base_key : list string := ["database_name"; "schema_name"].
Definition schema_redshift_key : list string := ["database_name"; "schema_name"].
Definition schema_external_key : list string := ["databasename"; "schemaname"].
Definition table_base_key : list string := ["table_catalog"; "table_schema"; "table_name"].
Definition table_all_key : list string := ["database_name"; "schema_name"; "table_name"].
Definition table_redshift_key : list string := ["database_name"; "schema_name"; "table_name"].
Definition table_external_key : list string := ["databasename"; "schemaname"; "tablename"].
Definition table_info_key : list string := ["database"; "schema"; "table"].
Definition column_base_fields : list string :=
  ["database_name"; "schema_name"; "table_name"; "column_name"; "ordinal_position"].
Definition column_base_key : list string :=
  ["database_name"; "schema_name"; "table_name"; "ordinal_position"].
Definition column_redshift_key : list string :=
  ["database_name"; "schema_name"; "table_name"; "ordinal_position"].
Definition column_external_key : list string :=
  ["databasename"; "schemaname"; "tablename"; "columnnum"].

(** Canonical identity keys of the merged objects, up to [==]. *)
Definition schema_key (m : MetadataSchema) : list pyval :=
  canon <$> [s_database_name m; s_schema_name m].
Definition table_key (m : MetadataTable) : list pyval :=
  canon <$> [t_database_name m; t_schema_name m; t_table_name m].
Definition column_key (m : MetadataColumn) : list pyval :=
  canon <$> [c_database_name m; c_schema_name m; c_table_name m; c_ordinal_position m].

(** Is a slot populated? *)
Definition populated (slot : option instance) : bool :=
  match slot with
  | Some _ => true
  | None => false
  end.

(** One probe of the lockstep scan on keys alone: the base key [b]
    against the remaining auxiliary keys. *)
Definition probe (b : list pyval) (ka : list (list pyval)) : bool * list (list pyval) :=
  match ka with
  | a :: ka' => if bool_decide (a = b) then (true, ka') else (false, ka)
  | [] => (false, [])
  end.

(** The lockstep scan on keys alone: which base keys get a match. *)
Fixpoint greedy (kb ka : list (list pyval)) : list bool :=
  match kb with
  | [] => []
  | b :: kb' => (probe b ka).1 :: greedy kb' (probe b ka).2
  end.

(** What one loop iteration may do to an auxiliary cursor: either the
    slot stays empty and the cursor stays, or the row at the cursor is
    decoded, attached, and the cursor moves by one. *)
Definition cursor_step (cls : dataclass) (rows : list tuple)
    (index index' : nat) (slot : option instance) : Prop :=
  (slot = None ∧ index' = index) ∨
  (∃ row r, rows !! index = Some row ∧ construct cls row = Ok r ∧
            slot = Some r ∧ index' = S index).

Section Iterations.

Variable M : models.

(** The merged object [m] was built from the base row [row]: its base
    record is the decoded row and its canonical fields are that record's
    fields. *)
Definition schema_from_base (row : tuple) (m : MetadataSchema) : Prop :=
  ∃ b, construct (MetadataSchemaBase M) row = Ok b ∧ s_base m = Some b ∧
       getattr b "database_name" = Ok (s_database_name m) ∧
       getattr b "schema_name" = Ok (s_schema_name m).

Definition table_from_base (row : tuple) (m : MetadataTable) : Prop :=
  ∃ b, construct (MetadataTableBase M) row = Ok b ∧ t_base m = Some b ∧
       getattr b "table_catalog" = Ok (t_database_name m) ∧
       getattr b "table_schema" = Ok (t_schema_name m) ∧
       getattr b "table_name" = Ok (t_table_name m).

Definition column_from_base (row : tuple) (m : MetadataColumn) : Prop :=
  ∃ b, construct (MetadataColumnBase M) row = Ok b ∧ c_base m = Some b ∧
       getattr b "database_name" = Ok (c_database_name m) ∧
       getattr b "schema_name" = Ok (c_schema_name m) ∧
       getattr b "table_name" = Ok (c_table_name m) ∧
       getattr b "column_name" = Ok (c_column_name m) ∧
       getattr b "ordinal_position" = Ok (c_ordinal_position m).

(** What a completed iteration of the schema loop has done. *)
Definition schemas_iter (rs ex : list tuple) (st st1 : schemas_state)
    (row : tuple) (m : MetadataSchema) : Prop :=
  ss_ms st1 = ss_ms st ++ [m] ∧
  schema_from_base row m ∧
  cursor_step (MetadataSchemaRedshift M) rs
    (ss_redshift_index st) (ss_redshift_index st1) (s_redshift m) ∧
  cursor_step (MetadataSchemaExternal M) ex
    (ss_external_index st) (ss_external_index st1) (s_external m).

(** What a completed iteration of the table loop has done. *)
Definition tables_iter (al rs ex inf : list tuple) (st st1 : tables_state)
    (row : tuple) (m : MetadataTable) : Prop :=
  ts_ms st1 = ts_ms st ++ [m] ∧
  table_from_base row m ∧
  cursor_step (MetadataTableAll M) al
    (ts_all_index st) (ts_all_index st1) (t_all m) ∧
  cursor_step (MetadataTableRedshift M) rs
    (ts_redshift_index st) (ts_redshift_index st1) (t_redshift m) ∧
  cursor_step (MetadataTableExternal M) ex
    (ts_external_index st) (ts_external_index st1) (t_external m) ∧
  cursor_step (MetadataTableInfo M) inf
    (ts_info_index st) (ts_info_index st1) (t_info m).

(** What a completed iteration of the column loop has done. *)
Definition columns_iter (rs ex : list tuple) (st st1 : columns_state)
    (row : tuple) (m : MetadataColumn) : Prop :=
  cs_ms st1 = cs_ms st ++ [m] ∧
  column_from_base row m ∧
  cursor_step (MetadataColumnRedshift M) rs
    (cs_redshift_index st) (cs_redshift_index st1) (c_redshift m) ∧
  cursor_step (MetadataColumnExternal M) ex
    (cs_external_index st) (cs_external_index st1) (c_external m).

End Iterations.

(** A slot is populated on exactly the objects whose key the auxiliary
    list has. *)
Definition slot_matches {A : Type} (key : A -> list pyval)
    (slot : A -> option instance) (items : list A) (ka : list (list pyval)) : Prop :=
  ∀ i m, items !! i = Some m -> (is_Some (slot m) ↔ key m ∈ ka).

(** Field shapes used to run the definitions on concrete rows.  Only the
    field names the loops read are fixed by the source; the others stand
    for the remaining columns of each query. *)
Definition example_models : models := {|
  MetadataSchemaBase := ["database_name"; "schema_name"; "schema_owner"];
  MetadataSchemaRedshift := ["database_name"; "schema_name"; "schema_type"];
  MetadataSchemaExternal := ["databasename"; "schemaname"; "esoptions"];
  MetadataTableBase := ["table_catalog"; "table_schema"; "table_name"; "table_type"];
  MetadataTableAll := ["database_name"; "schema_name"; "table_name"; "view_ddl"];
  MetadataTableRedshift := ["database_name"; "schema_name"; "table_name"; "table_owner"];
  MetadataTableExternal := ["databasename"; "schemaname"; "tablename"; "location"];
  MetadataTableInfo := ["database"; "schema"; "table"; "size"];
  MetadataColumnBase :=
    ["database_name"; "schema_name"; "table_name"; "column_name"; "ordinal_position"];
  MetadataColumnRedshift :=
    ["database_name"; "schema_name"; "table_name"; "column_name"; "ordinal_position"];
  MetadataColumnExternal :=
    ["databasename"; "schemaname"; "tablename"; "columnname"; "columnnum"];
|}.

(** The canonical identity fields of the merged objects, as stored. *)
Definition schema_identity (m : MetadataSchema) : list pyval :=
  [s_database_name m; s_schema_name m].
Definition table_identity (m : MetadataTable) : list pyval :=
  [t_database_name m; t_schema_name m; t_table_name m].
Definition column_identity (m : MetadataColumn) : list pyval :=
  [c_database_name m; c_schema_name m; c_table_name m; c_column_name m;
   c_ordinal_position m].

(** The exceptions row decoding can raise: a wrong arity in the
    constructor, or a key field the class does not have. *)
Definition decoding_error (e : exn) : Prop :=
  e = TypeError ∨ e = AttributeError.

(** The dependency rule in the words of the specification: one component
    gives a dependency in schema ["public"], two components give schema
    and name, anything longer gives nothing and one warning. *)
Definition spec_dependency_of (table : string) : list Dependency :=
  match split "."%char table with
  | [name] => [ {| dep_name := name; dep_schema := "public" |} ]
  | [schema; name] => [ {| dep_name := name; dep_schema := schema |} ]
  | _ => []
  end.

Definition spec_warnings_of (table : string) : list log_entry :=
  if bool_decide (2 < length (split "."%char table))
  then [LogWarning (warning_msg table)] else [].








(** A view with its [all] record, as the table aligner builds it. *)
Definition example_view : MetadataTable :=
  {| t_database_name := PStr "db"; t_schema_name := PStr "s";
     t_table_name := PStr "v";
     t_base := Some [("table_catalog", PStr "db"); ("table_schema", PStr "s");
                     ("table_name", PStr "v"); ("table_type", PStr "VIEW")];
     t_all := Some [("database_name", PStr "db"); ("schema_name", PStr "s");
                    ("table_name", PStr "v");
                    ("view_ddl", PStr "SELECT * FROM (foo), s1.bar, a.b.c")];
     t_redshift := None; t_external := None; t_info := None;
     t_columns := []; t_primary_keys := [] |}.

(** ** Published schema metadata *)

(** [omit(mapping, keys)] of the [funcy] package: the entries whose key
    is not in [keys]; keys that the mapping does not have are ignored. *)
Definition omit (mapping : gmap string pyval) (keys : gset string)
  : gmap string pyval :=
  filter (fun kv => kv.1 ∉ keys) mapping.

(** [MetadataSchema.odd_metadata]; [_schema_excluded_keys] is the
    constant of the [mappers] package, and [asdict] raises [TypeError]
    on anything that is not a dataclass instance, such as [None]. *)
Definition odd_metadata (_schema_excluded_keys : gset string) (m : MetadataSchema)
  : result (gmap string pyval) :=
  match s_base m with
  | None => Raise TypeError
  | Some base => Ok (omit (asdict base) _schema_excluded_keys)
  end.

(** ** Notions used to state further properties *)

(** [c.join(l)] for a one-character [c] *)
Fixpoint join (c : Ascii.ascii) (l : list string) : string :=
  match l with
  | [] => EmptyString
  | x :: l' =>
      match l' with
      | [] => x
      | _ :: _ => x +:+ String c (join c l')
      end
  end.

(** The string has no occurrence of the character. *)
Definition free_of (c : Ascii.ascii) (s : string) : Prop :=
  c ∉ list_ascii_of_string s.

(** The comparisons each auxiliary block makes: the field of the
    decoded auxiliary row against the canonical field of the object. *)
Definition schema_redshift_probe (m : MetadataSchema) : list (string * pyval) :=
  [("database_name", s_database_name m); ("schema_name", s_schema_name m)].
Definition schema_external_probe (m : MetadataSchema) : list (string * pyval) :=
  [("databasename", s_database_name m); ("schemaname", s_schema_name m)].
Definition table_all_probe (m : MetadataTable) : list (string * pyval) :=
  [("database_name", t_database_name m); ("schema_name", t_schema_name m);
   ("table_name", t_table_name m)].
Definition table_redshift_probe (m : MetadataTable) : list (string * pyval) :=
  [("database_name", t_database_name m); ("schema_name", t_schema_name m);
   ("table_name", t_table_name m)].
Definition table_external_probe (m : MetadataTable) : list (string * pyval) :=
  [("databasename", t_database_name m); ("schemaname", t_schema_name m);
   ("tablename", t_table_name m)].
Definition table_info_probe (m : MetadataTable) : list (string * pyval) :=
  [("database", t_database_name m); ("schema", t_schema_name m);
   ("table", t_table_name m)].
Definition column_redshift_probe (m : MetadataColumn) : list (string * pyval) :=
  [("database_name", c_database_name m); ("schema_name", c_schema_name m);
   ("table_name", c_table_name m); ("ordinal_position", c_ordinal_position m)].
Definition column_external_probe (m : MetadataColumn) : list (string * pyval) :=
  [("databasename", c_database_name m); ("schemaname", c_schema_name m);
   ("tablename", c_table_name m); ("columnnum", c_ordinal_position m)].

(** What one auxiliary block may do, comparison included: either the
    slot stays empty and the cursor stays, or the row at the cursor was
    decoded, every comparison of [key] came out true, the record was
    attached and the cursor moved by one. *)
Definition attach_step (cls : dataclass) (rows : list tuple)
    (key : list (string * pyval)) (index index' : nat) (slot : option instance)
  : Prop :=
  (slot = None ∧ index' = index) ∨
  (∃ row r, rows !! index = Some row ∧ construct cls row = Ok r ∧
            keys_match r key = Ok true ∧ slot = Some r ∧ index' = S index).

(** What a whole run has done with one auxiliary list: the attached
    records are, in order, the decoded first rows of the list, and each
    one passed the comparisons against the object that holds it. *)
Definition slot_run {B : Type} (cls : dataclass) (rows : list tuple)
    (key : B -> list (string * pyval)) (slot : B -> option instance)
    (items : list B) : Prop :=
  Forall2 (fun row r => construct cls row = Ok r)
    (take (length (omap slot items)) rows) (omap slot items) ∧
  Forall (fun m => ∀ r, slot m = Some r -> keys_match r (key m) = Ok true) items.

(** Every attached record carries the identity key of the object that
    holds it: its key fields can be read and are [==] to the object's
    canonical fields, one by one. *)
Definition no_misattribution {B : Type} (key : B -> list (string * pyval))
    (slot : B -> option instance) (items : list B) : Prop :=
  ∀ m r, m ∈ items -> slot m = Some r ->
    ∃ vs, getattrs r (key m).*1 = Ok vs ∧ canon <$> vs = canon <$> (key m).*2.

(** The attached records are the first rows of the auxiliary list,
    decoded, in the order of the list: no row is attached twice, none is
    passed over, and no more rows are attached than the list has. *)
Definition attached_prefix {B : Type} (cls : dataclass) (rows : list tuple)
    (slot : B -> option instance) (items : list B) : Prop :=
  length (omap slot items) ≤ length rows ∧
  Forall2 (fun row r => construct cls row = Ok r)
    (take (length (omap slot items)) rows) (omap slot items).

(** An auxiliary row whose identity key no object has stops the scan:
    neither it nor any row after it is attached. *)
Definition blocked_by_unmatched {B : Type} (cls : dataclass) (rows : list tuple)
    (key : B -> list (string * pyval)) (slot : B -> option instance)
    (items : list B) : Prop :=
  ∀ n row, rows !! n = Some row ->
    (∀ m, m ∈ items ->
       row_key cls (key m).*1 row ≠ Ok (canon <$> (key m).*2)) ->
    length (omap slot items) ≤ n.

(** The class has the field [f], and [v] is the value of the row at
    the position of [f] in the class. *)
Definition decoded_at (cls : dataclass) (row : tuple) (f : string) (v : pyval) : Prop :=
  (∃ j, cls !! j = Some f) ∧ ∀ j, cls !! j = Some f -> row !! j = Some v.

(** Rows used to run the aligners on concrete inputs. *)
Definition example_tables_base : list tuple :=
  [[PStr "db"; PStr "s"; PStr "t1"; PStr "TABLE"];
   [PStr "db"; PStr "s"; PStr "t2"; PStr "VIEW"]].
Definition example_tables_all : list tuple :=
  [[PStr "db"; PStr "s"; PStr "t2"; PStr "SELECT * FROM s.t1"]].
Definition example_tables_redshift : list tuple :=
  [[PStr "db"; PStr "s"; PStr "t1"; PStr "admin"];
   [PStr "db"; PStr "s"; PStr "t2"; PStr "admin"]].
Definition example_tables_external : list tuple :=
  [[PStr "db"; PStr "spectrum"; PStr "e1"; PStr "s3://bucket/e1"];
   [PStr "db"; PStr "s"; PStr "t2"; PStr "s3://bucket/t2"]].
Definition example_schemas_base : list tuple :=
  [[PStr "db"; PStr "public"; PInt 100]; [PStr "db"; PStr "s"; PNone]].

(** The identity string a table identifier of a view definition ends up
    with: itself when it is schema-qualified, prefixed by the default
    schema when it is not, none when it has more than two components. *)
Definition identifier_uid (table : string) : list string :=
  match length (split "."%char table) with
  | 1 => ["public." +:+ table]
  | 2 => [table]
  | _ => []
  end.

(** A plain table: its [all] record has no view definition. *)
Definition example_plain_table : MetadataTable :=
  {| t_database_name := PStr "db"; t_schema_name := PStr "s";
     t_table_name := PStr "t1"; t_base := None;
     t_all := Some [("database_name", PStr "db"); ("schema_name", PStr "s");
                    ("table_name", PStr "t1"); ("view_ddl", PNone)];
     t_redshift := None; t_external := None; t_info := None;
     t_columns := []; t_primary_keys := [] |}.

(** What the projector does once the excluded keys are popped: it hands
    the schema identifier and the mapping to the constructor, appends the
    object the constructor builds, and lets an exception of the
    constructor through with the list unchanged. *)
Definition appended_with {Extension : Type}
    (MetadataExtension : string -> gmap string pyval -> result Extension)
    (l : list Extension) (url : string) (mapping : gmap string pyval)
  : list Extension * result unit :=
  match MetadataExtension url mapping with
  | Ok extension => (l ++ [extension], Ok ())
  | Raise e => (l, Raise e)
  end.

(** A constructor used to run the projector on concrete inputs: it keeps
    its two arguments and accepts the identifiers that start with
    "https://". *)
Record example_extension : Type := {
  schema_url : string;
  metadata : gmap string pyval;
}.

Definition example_MetadataExtension (url : string) (mapping : gmap string pyval)
  : result example_extension :=
  if String.prefix "https://" url
  then Ok {| schema_url := url; metadata := mapping |}
  else Raise ValidationError.

(** The slot of the object [m] agrees with the auxiliary list: it is
    populated exactly when the identity key of [m] is the key of a row of
    the list, and then it holds a row of the list, decoded, that carries
    that key. *)
Definition slot_agrees {B : Type} (cls : dataclass) (names : list string)
    (rows : list tuple) (key : B -> list pyval) (slot : B -> option instance)
    (m : B) : Prop :=
  (is_Some (slot m) ↔ key m ∈ row_keys cls names rows) ∧
  ∀ r, slot m = Some r ->
    ∃ j row, rows !! j = Some row ∧ construct cls row = Ok r ∧
             row_key cls names row = Ok (key m).

(** A base list with a repeated identity key, and an auxiliary list that
    has this key once. *)
Definition example_tables_repeated : list tuple :=
  [[PStr "db"; PStr "s"; PStr "t1"; PStr "TABLE"];
   [PStr "db"; PStr "s"; PStr "t1"; PStr "TABLE"]].
Definition example_tables_redshift_once : list tuple :=
  [[PStr "db"; PStr "s"; PStr "t1"; PStr "admin"]].

(** ** Aligner calls on shared lists *)

(** The lists an aligner receives are mutable objects shared with the
    caller, and the aligner itself is a new object that holds [items].
    A heap maps references to such objects; a computation takes a heap
    and gives the heap it leaves and its outcome. *)
Abbreviation loc := nat (only parsing).

Inductive hobj : Type :=
  | HRows (rows : list tuple)
  | HSchemas (items : list MetadataSchema)
  | HTables (items : list MetadataTable)
  | HColumns (items : list MetadataColumn).

Abbreviation heap := (gmap nat hobj) (only parsing).

Definition prog (A : Type) : Type := heap -> heap * result A.

#[global] Instance prog_ret : MRet prog := fun A a h => (h, Ok a).





(** A new object, at a reference the heap does not use *)
Definition new (o : hobj) : prog loc := fun h =>
  let self := fresh (dom h) in (<[self := o]> h, Ok self).



Section AlignersOnHeap.

Variable M : models.







End AlignersOnHeap.



(** * Properties *)

(** ** The error monad and the loop combinator *)

Lemma bind_Ok_inv {A B} (r : result A) (f : A -> result B) (b : B) :
  r ≫= f = Ok b -> ∃ a, r = Ok a ∧ f a = Ok b.
Proof. destruct r as [a|e]; [eauto | discriminate]. Qed.

Lemma for_each_app {A S} (body : S -> A -> result S) (l1 l2 : list A) (s : S) :
  for_each body (l1 ++ l2) s = for_each body l1 s ≫= for_each body l2.
Proof.
  revert s. induction l1 as [|x l1 IH]; intros s; simpl; [done|].
  destruct (body s x) as [s'|e]; simpl; [apply IH | done].
Qed.

Lemma for_each_snoc {A S} (body : S -> A -> result S) (l : list A) (x : A) (s : S) :
  for_each body (l ++ [x]) s = for_each body l s ≫= fun s' => body s' x.
Proof.
  rewrite for_each_app. destruct (for_each body l s) as [s'|e]; simpl; [|done].
  by destruct (body s' x).
Qed.

Ltac inv_bind H :=
  let a := fresh "a" in
  let Ha := fresh "Ha" in
  apply bind_Ok_inv in H; destruct H as (a & Ha & H).

(** ** One auxiliary probe *)

Lemma py_eq_canon (a b : pyval) : py_eq a b = true ↔ canon a = canon b.
Proof. unfold py_eq. apply bool_decide_eq_true. Qed.


Lemma attach_cursor_step cls rows index key slot index' :
  attach cls rows index key = Ok (slot, index') ->
  cursor_step cls rows index index' slot.
Proof.
  unfold attach, cursor_step. destruct (rows !! index) as [row|] eqn:Hrow.
  - intros H. inv_bind H. inv_bind H. destruct a0; simplify_eq; [right | left]; eauto 10.
  - intros; simplify_eq. by left.
Qed.

(** With the key fields readable, the [and]-chain decides equality of
    the keys up to [==]. *)
Lemma keys_match_getattrs r key vs :
  getattrs r key.*1 = Ok vs ->
  keys_match r key = Ok (bool_decide (canon <$> vs = canon <$> key.*2)).
Proof.
  revert vs. induction key as [|[f k] key IH]; intros vs H; simpl in *.
  - by simplify_eq.
  - inv_bind H. inv_bind H. simplify_eq. rewrite Ha. simpl.
    rewrite (IH _ Ha0). destruct (py_eq a k) eqn:E.
    + apply py_eq_canon in E. f_equal. apply bool_decide_ext. simpl. rewrite E.
      split; [intros Hl; f_equal; exact Hl | intros [= Hl]; exact Hl].
    + f_equal. symmetry. apply bool_decide_eq_false. intros [= E' _].
      apply py_eq_canon in E'. congruence.
Qed.

Lemma wf_rows_lookup cls names rows i row :
  wf_rows cls names rows = true -> rows !! i = Some row ->
  ∃ r vs, construct cls row = Ok r ∧ getattrs r names = Ok vs ∧
          row_key cls names row = Ok (canon <$> vs).
Proof.
  intros Hwf Hrow. unfold wf_rows in Hwf. rewrite forallb_forall in Hwf.
  assert (Hin : In row rows) by (apply list_elem_of_In; eauto using list_elem_of_lookup_2).
  specialize (Hwf _ Hin). unfold wf_row, row_key in *.
  destruct (construct cls row) as [r|]; simpl in *; [|done].
  destruct (getattrs r names) as [vs|] eqn:Hvs; simpl in *; [|done].
  by exists r, vs.
Qed.

(** On well-formed auxiliary rows [attach] never raises, and on keys it
    is exactly one [probe] of the remaining auxiliary keys. *)
Lemma attach_probe cls rows index key :
  wf_rows cls key.*1 rows = true ->
  ∃ slot index',
    attach cls rows index key = Ok (slot, index') ∧
    probe (canon <$> key.*2) (drop index (row_keys cls key.*1 rows)) =
      (populated slot, drop index' (row_keys cls key.*1 rows)).
Proof.
  intros Hwf. unfold attach. destruct (rows !! index) as [row|] eqn:Hrow.
  - destruct (wf_rows_lookup _ _ _ _ _ Hwf Hrow) as (r & vs & Hr & Hvs & Hk).
    rewrite Hr. simpl. rewrite (keys_match_getattrs _ _ _ Hvs). simpl.
    assert (Hd : drop index (row_keys cls key.*1 rows) =
                 (canon <$> vs) :: drop (S index) (row_keys cls key.*1 rows)).
    { apply drop_S. unfold row_keys. rewrite list_lookup_fmap, Hrow. simpl.
      by rewrite Hk. }
    rewrite Hd. unfold probe. case_bool_decide.
    + by exists (Some r), (S index).
    + exists None, index. by rewrite Hd.
  - exists None, index. split; [done|].
    rewrite drop_ge; [done|]. unfold row_keys. rewrite length_fmap.
    by apply lookup_ge_None.
Qed.

Lemma wf_row_inv cls names row :
  wf_row cls names row = true ->
  ∃ r vs, construct cls row = Ok r ∧ getattrs r names = Ok vs ∧
          row_key cls names row = Ok (canon <$> vs).
Proof.
  unfold wf_row, row_key.
  destruct (construct cls row) as [r|]; simpl; [|done].
  destruct (getattrs r names) as [vs|] eqn:Hvs; simpl; [|done].
  intros _. by exists r, vs.
Qed.

Lemma wf_rows_cons cls names row rows :
  wf_rows cls names (row :: rows) = true ->
  wf_row cls names row = true ∧ wf_rows cls names rows = true.
Proof. unfold wf_rows. simpl. by intros ?%andb_prop. Qed.

(** ** The lockstep scan on keys *)

Lemma probe_miss (b : list pyval) (ka : list (list pyval)) :
  b ∉ ka -> probe b ka = (false, ka).
Proof.
  destruct ka as [|a ka]; simpl; [done|]. intros Hb.
  rewrite bool_decide_eq_false_2; [done|]. intros ->. apply Hb. by left.
Qed.

Lemma greedy_cons (b : list pyval) (kb ka : list (list pyval)) :
  greedy (b :: kb) ka = (probe b ka).1 :: greedy kb (probe b ka).2.
Proof. done. Qed.

Lemma row_keys_cons cls names row rows k :
  row_key cls names row = Ok k ->
  row_keys cls names (row :: rows) = k :: row_keys cls names rows.
Proof. intros H. unfold row_keys. rewrite fmap_cons. by rewrite H. Qed.

(** When the auxiliary keys are a subsequence of pairwise distinct base
    keys, the scan marks exactly the base keys the auxiliary list has. *)
Lemma greedy_sublist (kb ka : list (list pyval)) :
  ka `sublist_of` kb -> NoDup kb ->
  greedy kb ka = (fun b => bool_decide (b ∈ ka)) <$> kb.
Proof.
  revert ka. induction kb as [|b kb IH]; intros ka Hsub Hnd; [done|].
  apply NoDup_cons in Hnd as [Hb Hnd]. simpl.
  apply sublist_cons_r in Hsub as [Hsub|(ka' & -> & Hsub)].
  - assert (Hka : b ∉ ka).
    { intros Hin. apply Hb. eapply elem_of_sublist; eauto. }
    rewrite (probe_miss _ _ Hka). simpl. rewrite (IH _ Hsub Hnd).
    by rewrite bool_decide_eq_false_2.
  - simpl. rewrite bool_decide_eq_true_2 by done. simpl.
    rewrite bool_decide_eq_true_2 by (by left). f_equal.
    rewrite (IH _ Hsub Hnd). apply list_fmap_ext.
    intros i x Hx%list_elem_of_lookup_2. apply bool_decide_ext. rewrite elem_of_cons.
    split; [by right|]. intros [->|?]; done.
Qed.

Lemma getattrs_cons_inv r f fs vs :
  getattrs r (f :: fs) = Ok vs ->
  ∃ v vs', getattr r f = Ok v ∧ getattrs r fs = Ok vs' ∧ vs = v :: vs'.
Proof.
  simpl. destruct (getattr r f) as [v|]; simpl; [|done].
  destruct (getattrs r fs) as [vs'|]; simpl; [|done].
  intros [= <-]. by exists v, vs'.
Qed.

Ltac inv_getattrs H :=
  repeat (let v := fresh "v" in
          let Hv := fresh "Hv" in
          apply getattrs_cons_inv in H as (v & ? & Hv & H & ->));
  simpl in H; injection H as <-.

(** ** The aligners on well-formed rows *)

Ltac use_attach Hwf idx key slot idx' Hp :=
  let Hatt := fresh "Hatt" in
  destruct (attach_probe _ _ idx key Hwf) as (slot & idx' & Hatt & Hp);
  simpl in Hatt; rewrite Hatt; clear Hatt; simpl.

Section AlignersWf.

Variable M : models.

Lemma tables_body_wf al rs ex inf st row :
  wf_row (MetadataTableBase M) table_base_key row = true ->
  wf_rows (MetadataTableAll M) table_all_key al = true ->
  wf_rows (MetadataTableRedshift M) table_redshift_key rs = true ->
  wf_rows (MetadataTableExternal M) table_external_key ex = true ->
  wf_rows (MetadataTableInfo M) table_info_key inf = true ->
  ∃ st1 m,
    tables_body M al rs ex inf st row = Ok st1 ∧
    ts_ms st1 = ts_ms st ++ [m] ∧
    row_key (MetadataTableBase M) table_base_key row = Ok (table_key m) ∧
    probe (table_key m)
      (drop (ts_all_index st) (row_keys (MetadataTableAll M) table_all_key al)) =
      (populated (t_all m),
       drop (ts_all_index st1) (row_keys (MetadataTableAll M) table_all_key al)) ∧
    probe (table_key m)
      (drop (ts_redshift_index st)
         (row_keys (MetadataTableRedshift M) table_redshift_key rs)) =
      (populated (t_redshift m),
       drop (ts_redshift_index st1)
         (row_keys (MetadataTableRedshift M) table_redshift_key rs)) ∧
    probe (table_key m)
      (drop (ts_external_index st)
         (row_keys (MetadataTableExternal M) table_external_key ex)) =
      (populated (t_external m),
       drop (ts_external_index st1)
         (row_keys (MetadataTableExternal M) table_external_key ex)) ∧
    probe (table_key m)
      (drop (ts_info_index st) (row_keys (MetadataTableInfo M) table_info_key inf)) =
      (populated (t_info m),
       drop (ts_info_index st1) (row_keys (MetadataTableInfo M) table_info_key inf)).
Proof.
  intros Hrow Hal Hrs Hex Hinf.
  destruct (wf_row_inv _ _ _ Hrow) as (r & vs & Hr & Hvs & Hk).
  inv_getattrs Hvs.
  unfold tables_body. rewrite Hr. simpl. rewrite Hv, Hv0, Hv1. simpl.
  use_attach Hal (ts_all_index st)
    [("database_name", v); ("schema_name", v0); ("table_name", v1)] s1 i1 Hp1.
  use_attach Hrs (ts_redshift_index st)
    [("database_name", v); ("schema_name", v0); ("table_name", v1)] s2 i2 Hp2.
  use_attach Hex (ts_external_index st)
    [("databasename", v); ("schemaname", v0); ("tablename", v1)] s3 i3 Hp3.
  use_attach Hinf (ts_info_index st)
    [("database", v); ("schema", v0); ("table", v1)] s4 i4 Hp4.
  eexists _, _. split; [done|]. simpl. split; [done|]. by repeat split.
Qed.

Lemma tables_loop_wf base al rs ex inf :
  wf_rows (MetadataTableBase M) table_base_key base = true ->
  wf_rows (MetadataTableAll M) table_all_key al = true ->
  wf_rows (MetadataTableRedshift M) table_redshift_key rs = true ->
  wf_rows (MetadataTableExternal M) table_external_key ex = true ->
  wf_rows (MetadataTableInfo M) table_info_key inf = true ->
  ∀ st, ∃ st' new,
    for_each (tables_body M al rs ex inf) base st = Ok st' ∧
    ts_ms st' = ts_ms st ++ new ∧
    table_key <$> new = row_keys (MetadataTableBase M) table_base_key base ∧
    (populated ∘ t_all) <$> new =
      greedy (row_keys (MetadataTableBase M) table_base_key base)
        (drop (ts_all_index st) (row_keys (MetadataTableAll M) table_all_key al)) ∧
    (populated ∘ t_redshift) <$> new =
      greedy (row_keys (MetadataTableBase M) table_base_key base)
        (drop (ts_redshift_index st)
           (row_keys (MetadataTableRedshift M) table_redshift_key rs)) ∧
    (populated ∘ t_external) <$> new =
      greedy (row_keys (MetadataTableBase M) table_base_key base)
        (drop (ts_external_index st)
           (row_keys (MetadataTableExternal M) table_external_key ex)) ∧
    (populated ∘ t_info) <$> new =
      greedy (row_keys (MetadataTableBase M) table_base_key base)
        (drop (ts_info_index st) (row_keys (MetadataTableInfo M) table_info_key inf)).
Proof.
  intros Hbase Hal Hrs Hex Hinf.
  induction base as [|row base IH]; intros st.
  { exists st, []. by rewrite app_nil_r. }
  apply wf_rows_cons in Hbase as [Hrow Hbase].
  destruct (tables_body_wf al rs ex inf st row Hrow Hal Hrs Hex Hinf)
    as (st1 & m & Hbody & Hms1 & Hk & Hp1 & Hp2 & Hp3 & Hp4).
  destruct (IH Hbase st1) as (st' & new & Hloop & Hms & Hkeys & H1 & H2 & H3 & H4).
  exists st', (m :: new).
  split; [simpl; by rewrite Hbody|].
  split; [by rewrite Hms, Hms1, <- app_assoc|].
  rewrite (row_keys_cons _ _ _ _ _ Hk), !fmap_cons, !greedy_cons.
  rewrite Hkeys, Hp1, Hp2, Hp3, Hp4, H1, H2, H3, H4. done.
Qed.

Lemma schemas_body_wf rs ex st row :
  wf_row (MetadataSchemaBase M) schema_base_key row = true ->
  wf_rows (MetadataSchemaRedshift M) schema_redshift_key rs = true ->
  wf_rows (MetadataSchemaExternal M) schema_external_key ex = true ->
  ∃ st1 m,
    schemas_body M rs ex st row = Ok st1 ∧
    ss_ms st1 = ss_ms st ++ [m] ∧
    row_key (MetadataSchemaBase M) schema_base_key row = Ok (schema_key m) ∧
    probe (schema_key m)
      (drop (ss_redshift_index st)
         (row_keys (MetadataSchemaRedshift M) schema_redshift_key rs)) =
      (populated (s_redshift m),
       drop (ss_redshift_index st1)
         (row_keys (MetadataSchemaRedshift M) schema_redshift_key rs)) ∧
    probe (schema_key m)
      (drop (ss_external_index st)
         (row_keys (MetadataSchemaExternal M) schema_external_key ex)) =
      (populated (s_external m),
       drop (ss_external_index st1)
         (row_keys (MetadataSchemaExternal M) schema_external_key ex)).
Proof.
  intros Hrow Hrs Hex.
  destruct (wf_row_inv _ _ _ Hrow) as (r & vs & Hr & Hvs & Hk).
  inv_getattrs Hvs.
  unfold schemas_body. rewrite Hr. simpl. rewrite Hv, Hv0. simpl.
  use_attach Hrs (ss_redshift_index st)
    [("database_name", v); ("schema_name", v0)] s1 i1 Hp1.
  use_attach Hex (ss_external_index st)
    [("databasename", v); ("schemaname", v0)] s2 i2 Hp2.
  eexists _, _. split; [done|]. simpl. split; [done|]. by repeat split.
Qed.

Lemma schemas_loop_wf base rs ex :
  wf_rows (MetadataSchemaBase M) schema_base_key base = true ->
  wf_rows (MetadataSchemaRedshift M) schema_redshift_key rs = true ->
  wf_rows (MetadataSchemaExternal M) schema_external_key ex = true ->
  ∀ st, ∃ st' new,
    for_each (schemas_body M rs ex) base st = Ok st' ∧
    ss_ms st' = ss_ms st ++ new ∧
    schema_key <$> new = row_keys (MetadataSchemaBase M) schema_base_key base ∧
    (populated ∘ s_redshift) <$> new =
      greedy (row_keys (MetadataSchemaBase M) schema_base_key base)
        (drop (ss_redshift_index st)
           (row_keys (MetadataSchemaRedshift M) schema_redshift_key rs)) ∧
    (populated ∘ s_external) <$> new =
      greedy (row_keys (MetadataSchemaBase M) schema_base_key base)
        (drop (ss_external_index st)
           (row_keys (MetadataSchemaExternal M) schema_external_key ex)).
Proof.
  intros Hbase Hrs Hex.
  induction base as [|row base IH]; intros st.
  { exists st, []. by rewrite app_nil_r. }
  apply wf_rows_cons in Hbase as [Hrow Hbase].
  destruct (schemas_body_wf rs ex st row Hrow Hrs Hex)
    as (st1 & m & Hbody & Hms1 & Hk & Hp1 & Hp2).
  destruct (IH Hbase st1) as (st' & new & Hloop & Hms & Hkeys & H1 & H2).
  exists st', (m :: new).
  split; [simpl; by rewrite Hbody|].
  split; [by rewrite Hms, Hms1, <- app_assoc|].
  rewrite (row_keys_cons _ _ _ _ _ Hk), !fmap_cons, !greedy_cons.
  rewrite Hkeys, Hp1, Hp2, H1, H2. done.
Qed.

Lemma columns_body_wf rs ex st row :
  wf_row (MetadataColumnBase M) column_base_fields row = true ->
  wf_rows (MetadataColumnRedshift M) column_redshift_key rs = true ->
  wf_rows (MetadataColumnExternal M) column_external_key ex = true ->
  ∃ st1 m,
    columns_body M rs ex st row = Ok st1 ∧
    cs_ms st1 = cs_ms st ++ [m] ∧
    row_key (MetadataColumnBase M) column_base_key row = Ok (column_key m) ∧
    probe (column_key m)
      (drop (cs_redshift_index st)
         (row_keys (MetadataColumnRedshift M) column_redshift_key rs)) =
      (populated (c_redshift m),
       drop (cs_redshift_index st1)
         (row_keys (MetadataColumnRedshift M) column_redshift_key rs)) ∧
    probe (column_key m)
      (drop (cs_external_index st)
         (row_keys (MetadataColumnExternal M) column_external_key ex)) =
      (populated (c_external m),
       drop (cs_external_index st1)
         (row_keys (MetadataColumnExternal M) column_external_key ex)).
Proof.
  intros Hrow Hrs Hex.
  destruct (wf_row_inv _ _ _ Hrow) as (r & vs & Hr & Hvs & _).
  inv_getattrs Hvs.
  unfold columns_body. rewrite Hr. simpl. rewrite Hv, Hv0, Hv1, Hv2, Hv3. simpl.
  use_attach Hrs (cs_redshift_index st)
    [("database_name", v); ("schema_name", v0); ("table_name", v1);
     ("ordinal_position", v3)] s1 i1 Hp1.
  use_attach Hex (cs_external_index st)
    [("databasename", v); ("schemaname", v0); ("tablename", v1);
     ("columnnum", v3)] s2 i2 Hp2.
  eexists _, _. split; [done|]. simpl. split; [done|].
  split; [|by split].
  unfold row_key. rewrite Hr. simpl. by rewrite Hv, Hv0, Hv1, Hv3.
Qed.

Lemma columns_loop_wf base rs ex :
  wf_rows (MetadataColumnBase M) column_base_fields base = true ->
  wf_rows (MetadataColumnRedshift M) column_redshift_key rs = true ->
  wf_rows (MetadataColumnExternal M) column_external_key ex = true ->
  ∀ st, ∃ st' new,
    for_each (columns_body M rs ex) base st = Ok st' ∧
    cs_ms st' = cs_ms st ++ new ∧
    column_key <$> new = row_keys (MetadataColumnBase M) column_base_key base ∧
    (populated ∘ c_redshift) <$> new =
      greedy (row_keys (MetadataColumnBase M) column_base_key base)
        (drop (cs_redshift_index st)
           (row_keys (MetadataColumnRedshift M) column_redshift_key rs)) ∧
    (populated ∘ c_external) <$> new =
      greedy (row_keys (MetadataColumnBase M) column_base_key base)
        (drop (cs_external_index st)
           (row_keys (MetadataColumnExternal M) column_external_key ex)).
Proof.
  intros Hbase Hrs Hex.
  induction base as [|row base IH]; intros st.
  { exists st, []. by rewrite app_nil_r. }
  apply wf_rows_cons in Hbase as [Hrow Hbase].
  destruct (columns_body_wf rs ex st row Hrow Hrs Hex)
    as (st1 & m & Hbody & Hms1 & Hk & Hp1 & Hp2).
  destruct (IH Hbase st1) as (st' & new & Hloop & Hms & Hkeys & H1 & H2).
  exists st', (m :: new).
  split; [simpl; by rewrite Hbody|].
  split; [by rewrite Hms, Hms1, <- app_assoc|].
  rewrite (row_keys_cons _ _ _ _ _ Hk), !fmap_cons, !greedy_cons.
  rewrite Hkeys, Hp1, Hp2, H1, H2. done.
Qed.

End AlignersWf.

(** ** One loop iteration, on arbitrary rows *)

Ltac inv_attach H slot idx Hatt :=
  let p := fresh "p" in
  apply bind_Ok_inv in H; destruct H as (p & Hatt & H);
  destruct p as [slot idx]; apply attach_cursor_step in Hatt.

Section AlignersInv.

Variable M : models.

Lemma schemas_body_inv rs ex st row st1 :
  schemas_body M rs ex st row = Ok st1 -> ∃ m, schemas_iter M rs ex st st1 row m.
Proof.
  unfold schemas_body. intros H.
  inv_bind H. inv_bind H. inv_bind H.
  inv_attach H s1 i1 H1. inv_attach H s2 i2 H2.
  injection H as <-. eexists. unfold schemas_iter. simpl.
  split; [done|]. split; [|done]. by eexists.
Qed.

Lemma tables_body_inv al rs ex inf st row st1 :
  tables_body M al rs ex inf st row = Ok st1 ->
  ∃ m, tables_iter M al rs ex inf st st1 row m.
Proof.
  unfold tables_body. intros H.
  inv_bind H. inv_bind H. inv_bind H. inv_bind H.
  inv_attach H s1 i1 H1. inv_attach H s2 i2 H2.
  inv_attach H s3 i3 H3. inv_attach H s4 i4 H4.
  injection H as <-. eexists. unfold tables_iter. simpl.
  split; [done|]. split; [|done]. by eexists.
Qed.

Lemma columns_body_inv rs ex st row st1 :
  columns_body M rs ex st row = Ok st1 -> ∃ m, columns_iter M rs ex st st1 row m.
Proof.
  unfold columns_body. intros H.
  inv_bind H. inv_bind H. inv_bind H. inv_bind H. inv_bind H. inv_bind H.
  inv_attach H s1 i1 H1. inv_attach H s2 i2 H2.
  injection H as <-. eexists. unfold columns_iter. simpl.
  split; [done|]. split; [|done]. by eexists.
Qed.

End AlignersInv.

(** ** Whole runs, on arbitrary rows *)

Lemma for_each_Forall2 {A S B} (body : S -> A -> result S) (ms : S -> list B)
    (P : A -> B -> Prop) :
  (∀ s x s1, body s x = Ok s1 -> ∃ m, ms s1 = ms s ++ [m] ∧ P x m) ->
  ∀ l s s', for_each body l s = Ok s' ->
    ∃ new, ms s' = ms s ++ new ∧ Forall2 P l new.
Proof.
  intros Hbody l. induction l as [|x l IH]; intros s s' H; simpl in H.
  - injection H as <-. exists []. by rewrite app_nil_r.
  - inv_bind H. destruct (Hbody _ _ _ Ha) as (m & Hm & HP).
    destruct (IH _ _ H) as (new & Hnew & HF).
    exists (m :: new). split; [|by constructor].
    by rewrite Hnew, Hm, <- app_assoc.
Qed.

Lemma Forall2_fmap_eq {A B C} (P : A -> B -> Prop) (f : B -> C) (l : list A)
    (k k' : list B) :
  (∀ x y y', P x y -> P x y' -> f y = f y') ->
  Forall2 P l k -> Forall2 P l k' -> f <$> k = f <$> k'.
Proof.
  intros Hf Hk. revert k'. induction Hk as [|x y l k HP Hk IH]; intros k' Hk'.
  - by inversion Hk'.
  - inversion Hk' as [|? y' ? k'' HP' Hk'']; subst. rewrite !fmap_cons.
    f_equal; eauto.
Qed.

Section AlignersRuns.

Variable M : models.

Lemma MetadataSchemas_from_base base rs ex items :
  MetadataSchemas M base rs ex = Ok items -> Forall2 (schema_from_base M) base items.
Proof.
  unfold MetadataSchemas, schemas_loop. intros H. inv_bind H. injection H as <-.
  destruct (for_each_Forall2 (schemas_body M rs ex) ss_ms (schema_from_base M))
    with (l := base) (s := schemas_init) (s' := a) as (new & Hnew & HF); [|done|].
  - intros s x s1 Hb. destruct (schemas_body_inv _ _ _ _ _ _ Hb) as (m & ? & ? & _).
    eauto.
  - by rewrite Hnew.
Qed.

Lemma MetadataTables_from_base base al rs ex inf items :
  MetadataTables M base al rs ex inf = Ok items ->
  Forall2 (table_from_base M) base items.
Proof.
  unfold MetadataTables, tables_loop. intros H. inv_bind H. injection H as <-.
  destruct (for_each_Forall2 (tables_body M al rs ex inf) ts_ms (table_from_base M))
    with (l := base) (s := tables_init) (s' := a) as (new & Hnew & HF); [|done|].
  - intros s x s1 Hb.
    destruct (tables_body_inv _ _ _ _ _ _ _ _ Hb) as (m & ? & ? & _). eauto.
  - by rewrite Hnew.
Qed.

Lemma MetadataColumns_from_base base rs ex items :
  MetadataColumns M base rs ex = Ok items -> Forall2 (column_from_base M) base items.
Proof.
  unfold MetadataColumns, columns_loop. intros H. inv_bind H. injection H as <-.
  destruct (for_each_Forall2 (columns_body M rs ex) cs_ms (column_from_base M))
    with (l := base) (s := columns_init) (s' := a) as (new & Hnew & HF); [|done|].
  - intros s x s1 Hb. destruct (columns_body_inv _ _ _ _ _ _ Hb) as (m & ? & ? & _).
    eauto.
  - by rewrite Hnew.
Qed.

Lemma MetadataSchemas_wf base rs ex :
  wf_rows (MetadataSchemaBase M) schema_base_key base = true ->
  wf_rows (MetadataSchemaRedshift M) schema_redshift_key rs = true ->
  wf_rows (MetadataSchemaExternal M) schema_external_key ex = true ->
  ∃ items,
    MetadataSchemas M base rs ex = Ok items ∧
    schema_key <$> items = row_keys (MetadataSchemaBase M) schema_base_key base ∧
    (populated ∘ s_redshift) <$> items =
      greedy (row_keys (MetadataSchemaBase M) schema_base_key base)
        (row_keys (MetadataSchemaRedshift M) schema_redshift_key rs) ∧
    (populated ∘ s_external) <$> items =
      greedy (row_keys (MetadataSchemaBase M) schema_base_key base)
        (row_keys (MetadataSchemaExternal M) schema_external_key ex).
Proof.
  intros Hb Hrs Hex.
  destruct (schemas_loop_wf M base rs ex Hb Hrs Hex schemas_init)
    as (st' & new & Hloop & Hms & H).
  exists new. unfold MetadataSchemas, schemas_loop. rewrite Hloop. simpl.
  by rewrite Hms.
Qed.

Lemma MetadataTables_wf base al rs ex inf :
  wf_rows (MetadataTableBase M) table_base_key base = true ->
  wf_rows (MetadataTableAll M) table_all_key al = true ->
  wf_rows (MetadataTableRedshift M) table_redshift_key rs = true ->
  wf_rows (MetadataTableExternal M) table_external_key ex = true ->
  wf_rows (MetadataTableInfo M) table_info_key inf = true ->
  ∃ items,
    MetadataTables M base al rs ex inf = Ok items ∧
    table_key <$> items = row_keys (MetadataTableBase M) table_base_key base ∧
    (populated ∘ t_all) <$> items =
      greedy (row_keys (MetadataTableBase M) table_base_key base)
        (row_keys (MetadataTableAll M) table_all_key al) ∧
    (populated ∘ t_redshift) <$> items =
      greedy (row_keys (MetadataTableBase M) table_base_key base)
        (row_keys (MetadataTableRedshift M) table_redshift_key rs) ∧
    (populated ∘ t_external) <$> items =
      greedy (row_keys (MetadataTableBase M) table_base_key base)
        (row_keys (MetadataTableExternal M) table_external_key ex) ∧
    (populated ∘ t_info) <$> items =
      greedy (row_keys (MetadataTableBase M) table_base_key base)
        (row_keys (MetadataTableInfo M) table_info_key inf).
Proof.
  intros Hb Hal Hrs Hex Hinf.
  destruct (tables_loop_wf M base al rs ex inf Hb Hal Hrs Hex Hinf tables_init)
    as (st' & new & Hloop & Hms & H).
  exists new. unfold MetadataTables, tables_loop. rewrite Hloop. simpl.
  by rewrite Hms.
Qed.

Lemma MetadataColumns_wf base rs ex :
  wf_rows (MetadataColumnBase M) column_base_fields base = true ->
  wf_rows (MetadataColumnRedshift M) column_redshift_key rs = true ->
  wf_rows (MetadataColumnExternal M) column_external_key ex = true ->
  ∃ items,
    MetadataColumns M base rs ex = Ok items ∧
    column_key <$> items = row_keys (MetadataColumnBase M) column_base_key base ∧
    (populated ∘ c_redshift) <$> items =
      greedy (row_keys (MetadataColumnBase M) column_base_key base)
        (row_keys (MetadataColumnRedshift M) column_redshift_key rs) ∧
    (populated ∘ c_external) <$> items =
      greedy (row_keys (MetadataColumnBase M) column_base_key base)
        (row_keys (MetadataColumnExternal M) column_external_key ex).
Proof.
  intros Hb Hrs Hex.
  destruct (columns_loop_wf M base rs ex Hb Hrs Hex columns_init)
    as (st' & new & Hloop & Hms & H).
  exists new. unfold MetadataColumns, columns_loop. rewrite Hloop. simpl.
  by rewrite Hms.
Qed.

End AlignersRuns.

(** ** Alignment of exact subsets *)

Lemma greedy_slot_matches {A : Type} (key : A -> list pyval)
    (slot : A -> option instance) (items : list A) (kb ka : list (list pyval)) :
  key <$> items = kb ->
  (populated ∘ slot) <$> items = greedy kb ka ->
  NoDup kb -> ka `sublist_of` kb ->
  slot_matches key slot items ka.
Proof.
  intros Hkey Hslot Hnd Hsub i m Hm.
  rewrite (greedy_sublist _ _ Hsub Hnd), <- Hkey, <- list_fmap_compose in Hslot.
  apply (f_equal (fun l => l !! i)) in Hslot.
  rewrite !list_lookup_fmap, Hm in Hslot. simpl in Hslot.
  injection Hslot as Hslot.
  destruct (slot m) as [r|]; simpl in Hslot.
  - symmetry in Hslot. apply bool_decide_eq_true in Hslot. split; [done | by eexists].
  - symmetry in Hslot. apply bool_decide_eq_false in Hslot.
    split; [by intros [? ?] | done].
Qed.

(** ** Length and order of the output *)

Lemma Forall2_length_lookup {A B} (P : A -> B -> Prop) (l : list A) (k : list B) :
  Forall2 P l k ->
  length k = length l ∧
  ∀ i x, l !! i = Some x -> ∃ y, k !! i = Some y ∧ P x y.
Proof.
  intros HF. split; [symmetry; by eapply Forall2_length|].
  intros i x Hx. by eapply Forall2_lookup_l.
Qed.

(** C2.  Whenever an aligner returns, its output has exactly one merged
    object per base row, in the base order, the i-th object being built
    from the i-th base row (its base record is that row decoded, whatever
    the auxiliary lists hold); and on rows that decode into their declared
    shapes each aligner does return.  Stated for [MetadataSchemas],
    [MetadataTables] and [MetadataColumns]. *)
Theorem aligner_output_follows_base (M : models) :
  (∀ base rs ex items,
     MetadataSchemas M base rs ex = Ok items ->
     length items = length base ∧
     ∀ i row, base !! i = Some row ->
       ∃ m, items !! i = Some m ∧ schema_from_base M row m) ∧
  (∀ base al rs ex inf items,
     MetadataTables M base al rs ex inf = Ok items ->
     length items = length base ∧
     ∀ i row, base !! i = Some row ->
       ∃ m, items !! i = Some m ∧ table_from_base M row m) ∧
  (∀ base rs ex items,
     MetadataColumns M base rs ex = Ok items ->
     length items = length base ∧
     ∀ i row, base !! i = Some row ->
       ∃ m, items !! i = Some m ∧ column_from_base M row m) ∧
  (∀ base rs ex,
     wf_rows (MetadataSchemaBase M) schema_base_key base = true ->
     wf_rows (MetadataSchemaRedshift M) schema_redshift_key rs = true ->
     wf_rows (MetadataSchemaExternal M) schema_external_key ex = true ->
     ∃ items, MetadataSchemas M base rs ex = Ok items ∧ length items = length base) ∧
  (∀ base al rs ex inf,
     wf_rows (MetadataTableBase M) table_base_key base = true ->
     wf_rows (MetadataTableAll M) table_all_key al = true ->
     wf_rows (MetadataTableRedshift M) table_redshift_key rs = true ->
     wf_rows (MetadataTableExternal M) table_external_key ex = true ->
     wf_rows (MetadataTableInfo M) table_info_key inf = true ->
     ∃ items, MetadataTables M base al rs ex inf = Ok items ∧
              length items = length base) ∧
  (∀ base rs ex,
     wf_rows (MetadataColumnBase M) column_base_fields base = true ->
     wf_rows (MetadataColumnRedshift M) column_redshift_key rs = true ->
     wf_rows (MetadataColumnExternal M) column_external_key ex = true ->
     ∃ items, MetadataColumns M base rs ex = Ok items ∧ length items = length base).
Proof.
  repeat apply conj.
  - intros base rs ex items H.
    by apply Forall2_length_lookup, MetadataSchemas_from_base with rs ex.
  - intros base al rs ex inf items H.
    by apply Forall2_length_lookup, MetadataTables_from_base with al rs ex inf.
  - intros base rs ex items H.
    by apply Forall2_length_lookup, MetadataColumns_from_base with rs ex.
  - intros base rs ex Hb Hrs Hex.
    destruct (MetadataSchemas_wf M base rs ex Hb Hrs Hex) as (items & Hok & _).
    exists items. split; [done|].
    by apply (Forall2_length_lookup (schema_from_base M)),
      MetadataSchemas_from_base with rs ex.
  - intros base al rs ex inf Hb Hal Hrs Hex Hinf.
    destruct (MetadataTables_wf M base al rs ex inf Hb Hal Hrs Hex Hinf)
      as (items & Hok & _).
    exists items. split; [done|].
    by apply (Forall2_length_lookup (table_from_base M)),
      MetadataTables_from_base with al rs ex inf.
  - intros base rs ex Hb Hrs Hex.
    destruct (MetadataColumns_wf M base rs ex Hb Hrs Hex) as (items & Hok & _).
    exists items. split; [done|].
    by apply (Forall2_length_lookup (column_from_base M)),
      MetadataColumns_from_base with rs ex.
Qed.

Lemma aligner_output_follows_base_witness :
  ∃ items,
    MetadataColumns example_models
      [[PStr "db"; PStr "s"; PStr "t"; PStr "id"; PInt 1];
       [PStr "db"; PStr "s"; PStr "t"; PStr "name"; PInt 2]]
      [[PStr "db"; PStr "s"; PStr "t"; PStr "name"; PInt 2]]
      [] = Ok items ∧
    length items = 2 ∧
    ∃ m, items !! 1 = Some m ∧
         column_from_base example_models
           [PStr "db"; PStr "s"; PStr "t"; PStr "name"; PInt 2] m.
Proof.
  destruct (aligner_output_follows_base example_models)
    as (_ & _ & Hcols & _ & _ & Hret).
  destruct (Hret
              [[PStr "db"; PStr "s"; PStr "t"; PStr "id"; PInt 1];
               [PStr "db"; PStr "s"; PStr "t"; PStr "name"; PInt 2]]
              [[PStr "db"; PStr "s"; PStr "t"; PStr "name"; PInt 2]]
              [] eq_refl eq_refl eq_refl) as (items & Hok & Hlen).
  exists items. split; [exact Hok|]. split; [exact Hlen|].
  destruct (Hcols _ _ _ _ Hok) as [_ Hith]. apply (Hith 1). reflexivity.
Defined.

(** ** Cursors *)

(** The state after [n] iterations over [l] is the result of the loop on
    the first [n] rows; iteration [n] takes it to the state after
    [n + 1] iterations. *)
Lemma for_each_prefix_step {A St} (body : St -> A -> result St) (l : list A)
    (n : nat) (x : A) (s0 st st' : St) :
  l !! n = Some x ->
  for_each body (take n l) s0 = Ok st ->
  for_each body (take (S n) l) s0 = Ok st' ->
  body st x = Ok st'.
Proof.
  intros Hx Hn HSn. rewrite (take_S_r _ _ _ Hx), for_each_snoc, Hn in HSn. done.
Qed.

(** C3.  In any run of an aligner, take the loop state before and after
    the iteration on base row [n].  For each auxiliary cursor, either the
    slot of the merged object of that row is [None] and the cursor is
    unchanged, or the slot holds the decoded auxiliary row that stood at
    the cursor and the cursor has moved by exactly one.  So a cursor
    never decreases, never jumps, moves only together with an attachment,
    and each iteration consumes at most one row of each auxiliary list. *)
Theorem aligner_cursor_steps (M : models) :
  (∀ base rs ex n row st st',
     base !! n = Some row ->
     schemas_loop M (take n base) rs ex = Ok st ->
     schemas_loop M (take (S n) base) rs ex = Ok st' ->
     ∃ m, ss_ms st' = ss_ms st ++ [m] ∧
          cursor_step (MetadataSchemaRedshift M) rs
            (ss_redshift_index st) (ss_redshift_index st') (s_redshift m) ∧
          cursor_step (MetadataSchemaExternal M) ex
            (ss_external_index st) (ss_external_index st') (s_external m)) ∧
  (∀ base al rs ex inf n row st st',
     base !! n = Some row ->
     tables_loop M (take n base) al rs ex inf = Ok st ->
     tables_loop M (take (S n) base) al rs ex inf = Ok st' ->
     ∃ m, ts_ms st' = ts_ms st ++ [m] ∧
          cursor_step (MetadataTableAll M) al
            (ts_all_index st) (ts_all_index st') (t_all m) ∧
          cursor_step (MetadataTableRedshift M) rs
            (ts_redshift_index st) (ts_redshift_index st') (t_redshift m) ∧
          cursor_step (MetadataTableExternal M) ex
            (ts_external_index st) (ts_external_index st') (t_external m) ∧
          cursor_step (MetadataTableInfo M) inf
            (ts_info_index st) (ts_info_index st') (t_info m)) ∧
  (∀ base rs ex n row st st',
     base !! n = Some row ->
     columns_loop M (take n base) rs ex = Ok st ->
     columns_loop M (take (S n) base) rs ex = Ok st' ->
     ∃ m, cs_ms st' = cs_ms st ++ [m] ∧
          cursor_step (MetadataColumnRedshift M) rs
            (cs_redshift_index st) (cs_redshift_index st') (c_redshift m) ∧
          cursor_step (MetadataColumnExternal M) ex
            (cs_external_index st) (cs_external_index st') (c_external m)).
Proof.
  repeat apply conj.
  - intros base rs ex n row st st' Hrow Hn HSn.
    pose proof (for_each_prefix_step _ _ _ _ _ _ _ Hrow Hn HSn) as Hb.
    destruct (schemas_body_inv _ _ _ _ _ _ Hb) as (m & Hms & _ & H1 & H2).
    by exists m.
  - intros base al rs ex inf n row st st' Hrow Hn HSn.
    pose proof (for_each_prefix_step _ _ _ _ _ _ _ Hrow Hn HSn) as Hb.
    destruct (tables_body_inv _ _ _ _ _ _ _ _ Hb) as (m & Hms & _ & H1 & H2 & H3 & H4).
    by exists m.
  - intros base rs ex n row st st' Hrow Hn HSn.
    pose proof (for_each_prefix_step _ _ _ _ _ _ _ Hrow Hn HSn) as Hb.
    destruct (columns_body_inv _ _ _ _ _ _ Hb) as (m & Hms & _ & H1 & H2).
    by exists m.
Qed.

Lemma aligner_cursor_steps_witness :
  ∃ m, ss_ms {| ss_ms := [ {| s_database_name := PStr "db";
                              s_schema_name := PStr "public";
                              s_base := Some [("database_name", PStr "db");
                                              ("schema_name", PStr "public");
                                              ("schema_owner", PInt 100)];
                              s_redshift := Some [("database_name", PStr "db");
                                                  ("schema_name", PStr "public");
                                                  ("schema_type", PStr "local")];
                              s_external := None |} ];
                ss_redshift_index := 1;
                ss_external_index := 0 |} = [] ++ [m] ∧
       cursor_step (MetadataSchemaRedshift example_models)
         [[PStr "db"; PStr "public"; PStr "local"]] 0 1 (s_redshift m) ∧
       cursor_step (MetadataSchemaExternal example_models)
         [[PStr "db"; PStr "spectrum"; PNone]] 0 0 (s_external m).
Proof.
  exact (proj1 (aligner_cursor_steps example_models)
           [[PStr "db"; PStr "public"; PInt 100]]
           [[PStr "db"; PStr "public"; PStr "local"]]
           [[PStr "db"; PStr "spectrum"; PNone]]
           0 [PStr "db"; PStr "public"; PInt 100] _ _
           eq_refl eq_refl eq_refl).
Defined.

(** ** Identity fields *)

Lemma Forall2_elem_of_r {A B} (P : A -> B -> Prop) (l : list A) (k : list B) (y : B) :
  Forall2 P l k -> y ∈ k -> ∃ x, x ∈ l ∧ P x y.
Proof.
  intros HF [i Hi]%list_elem_of_lookup_1.
  destruct (Forall2_lookup_r _ _ _ _ _ HF Hi) as (x & Hx & HP).
  exists x. split; [by eapply list_elem_of_lookup_2 | done].
Qed.

Lemma schema_from_base_identity M row m :
  schema_from_base M row m ->
  ∃ b, construct (MetadataSchemaBase M) row = Ok b ∧ s_base m = Some b ∧
       getattrs b schema_base_key = Ok (schema_identity m).
Proof.
  intros (b & Hb & Hm & H1 & H2). exists b. split; [done|]. split; [done|].
  simpl. by rewrite H1, H2.
Qed.

Lemma table_from_base_identity M row m :
  table_from_base M row m ->
  ∃ b, construct (MetadataTableBase M) row = Ok b ∧ t_base m = Some b ∧
       getattrs b table_base_key = Ok (table_identity m).
Proof.
  intros (b & Hb & Hm & H1 & H2 & H3). exists b. split; [done|]. split; [done|].
  simpl. by rewrite H1, H2, H3.
Qed.

Lemma column_from_base_identity M row m :
  column_from_base M row m ->
  ∃ b, construct (MetadataColumnBase M) row = Ok b ∧ c_base m = Some b ∧
       getattrs b column_base_fields = Ok (column_identity m).
Proof.
  intros (b & Hb & Hm & H1 & H2 & H3 & H4 & H5). exists b.
  split; [done|]. split; [done|]. simpl. by rewrite H1, H2, H3, H4, H5.
Qed.

(** C8.  In the output of each aligner, every merged object's canonical
    identity fields are the corresponding fields of its own base record
    ([database_name], [schema_name] for schemas; [table_catalog],
    [table_schema], [table_name] for tables; [database_name],
    [schema_name], [table_name], [column_name], [ordinal_position] for
    columns), and they do not depend on the auxiliary lists: two runs on
    the same base list with any auxiliary lists give the same identity
    fields. *)
Theorem identity_fields_from_base (M : models) :
  (∀ base rs ex items m,
     MetadataSchemas M base rs ex = Ok items -> m ∈ items ->
     ∃ b, s_base m = Some b ∧ getattrs b schema_base_key = Ok (schema_identity m)) ∧
  (∀ base al rs ex inf items m,
     MetadataTables M base al rs ex inf = Ok items -> m ∈ items ->
     ∃ b, t_base m = Some b ∧ getattrs b table_base_key = Ok (table_identity m)) ∧
  (∀ base rs ex items m,
     MetadataColumns M base rs ex = Ok items -> m ∈ items ->
     ∃ b, c_base m = Some b ∧ getattrs b column_base_fields = Ok (column_identity m)) ∧
  (∀ base rs ex rs' ex' items items',
     MetadataSchemas M base rs ex = Ok items ->
     MetadataSchemas M base rs' ex' = Ok items' ->
     schema_identity <$> items = schema_identity <$> items') ∧
  (∀ base al rs ex inf al' rs' ex' inf' items items',
     MetadataTables M base al rs ex inf = Ok items ->
     MetadataTables M base al' rs' ex' inf' = Ok items' ->
     table_identity <$> items = table_identity <$> items') ∧
  (∀ base rs ex rs' ex' items items',
     MetadataColumns M base rs ex = Ok items ->
     MetadataColumns M base rs' ex' = Ok items' ->
     column_identity <$> items = column_identity <$> items').
Proof.
  repeat apply conj.
  - intros base rs ex items m H Hm. apply MetadataSchemas_from_base in H.
    destruct (Forall2_elem_of_r _ _ _ _ H Hm) as (row & _ & Hrow).
    destruct (schema_from_base_identity _ _ _ Hrow) as (b & _ & ? & ?). eauto.
  - intros base al rs ex inf items m H Hm. apply MetadataTables_from_base in H.
    destruct (Forall2_elem_of_r _ _ _ _ H Hm) as (row & _ & Hrow).
    destruct (table_from_base_identity _ _ _ Hrow) as (b & _ & ? & ?). eauto.
  - intros base rs ex items m H Hm. apply MetadataColumns_from_base in H.
    destruct (Forall2_elem_of_r _ _ _ _ H Hm) as (row & _ & Hrow).
    destruct (column_from_base_identity _ _ _ Hrow) as (b & _ & ? & ?). eauto.
  - intros base rs ex rs' ex' items items' H H'.
    apply MetadataSchemas_from_base in H, H'.
    eapply Forall2_fmap_eq; [|exact H|exact H'].
    intros row y y' (b & Hb & _ & Hy)%schema_from_base_identity
      (b' & Hb' & _ & Hy')%schema_from_base_identity. congruence.
  - intros base al rs ex inf al' rs' ex' inf' items items' H H'.
    apply MetadataTables_from_base in H, H'.
    eapply Forall2_fmap_eq; [|exact H|exact H'].
    intros row y y' (b & Hb & _ & Hy)%table_from_base_identity
      (b' & Hb' & _ & Hy')%table_from_base_identity. congruence.
  - intros base rs ex rs' ex' items items' H H'.
    apply MetadataColumns_from_base in H, H'.
    eapply Forall2_fmap_eq; [|exact H|exact H'].
    intros row y y' (b & Hb & _ & Hy)%column_from_base_identity
      (b' & Hb' & _ & Hy')%column_from_base_identity. congruence.
Qed.

Lemma identity_fields_from_base_witness :
  table_identity <$>
    [ {| t_database_name := PStr "db"; t_schema_name := PStr "s";
         t_table_name := PStr "t1";
         t_base := Some [("table_catalog", PStr "db"); ("table_schema", PStr "s");
                         ("table_name", PStr "t1"); ("table_type", PStr "TABLE")];
         t_all := None; t_redshift := None; t_external := None; t_info := None;
         t_columns := []; t_primary_keys := [] |} ] =
  table_identity <$>
    [ {| t_database_name := PStr "db"; t_schema_name := PStr "s";
         t_table_name := PStr "t1";
         t_base := Some [("table_catalog", PStr "db"); ("table_schema", PStr "s");
                         ("table_name", PStr "t1"); ("table_type", PStr "TABLE")];
         t_all := None;
         t_redshift := Some [("database_name", PStr "db"); ("schema_name", PStr "s");
                             ("table_name", PStr "t1"); ("table_owner", PStr "admin")];
         t_external := None; t_info := None;
         t_columns := []; t_primary_keys := [] |} ].
Proof.
  exact (proj1 (proj2 (proj2 (proj2 (proj2 (identity_fields_from_base example_models)))))
           [[PStr "db"; PStr "s"; PStr "t1"; PStr "TABLE"]]
           [] [] [] []
           [] [[PStr "db"; PStr "s"; PStr "t1"; PStr "admin"]] [] []
           _ _ eq_refl eq_refl).
Defined.

(** ** Exceptions of the aligners *)

Lemma bind_Raise_inv {A B} (r : result A) (f : A -> result B) (e : exn) :
  r ≫= f = Raise e -> r = Raise e ∨ ∃ a, r = Ok a ∧ f a = Raise e.
Proof. destruct r as [a|e']; simpl; [eauto | intros [= ->]; by left]. Qed.

Lemma construct_Raise cls row e : construct cls row = Raise e -> decoding_error e.
Proof. unfold construct. case_bool_decide; [done|]. intros [= <-]. by left. Qed.

Lemma getattr_Raise obj name e : getattr obj name = Raise e -> decoding_error e.
Proof.
  induction obj as [|[f v] obj IH]; simpl.
  - intros [= <-]. by right.
  - destruct (String.eqb f name); [done | exact IH].
Qed.

Lemma keys_match_Raise r key e : keys_match r key = Raise e -> decoding_error e.
Proof.
  induction key as [|[f k] key IH]; simpl; [done|].
  intros [H|(v & _ & H)]%bind_Raise_inv; [by eapply getattr_Raise|].
  destruct (py_eq v k); [by apply IH | done].
Qed.

Lemma attach_Raise cls rows index key e :
  attach cls rows index key = Raise e -> decoding_error e.
Proof.
  unfold attach. destruct (rows !! index) as [row|]; [|done].
  intros [H|(r & _ & H)]%bind_Raise_inv; [by eapply construct_Raise|].
  apply bind_Raise_inv in H as [H|(b & _ & H)]; [by eapply keys_match_Raise|].
  by destruct b.
Qed.

(** A row of the wrong arity at the cursor makes the probe raise,
    whatever the class and the key. *)
Lemma attach_malformed_row (cls : dataclass) (rows : list tuple) (index : nat)
    (key : list (string * pyval)) (row : tuple) :
  rows !! index = Some row -> length row ≠ length cls ->
  attach cls rows index key = Raise TypeError.
Proof.
  intros Hrow Hlen. unfold attach, construct. rewrite Hrow.
  by rewrite bool_decide_eq_false_2.
Qed.

Lemma for_each_Raise {A St} (body : St -> A -> result St) (P : exn -> Prop) :
  (∀ s x e, body s x = Raise e -> P e) ->
  ∀ l s e, for_each body l s = Raise e -> P e.
Proof.
  intros Hbody l. induction l as [|x l IH]; intros s e; simpl; [done|].
  intros [H|(s1 & _ & H)]%bind_Raise_inv; eauto.
Qed.

Ltac raise_step H :=
  apply bind_Raise_inv in H as [H|(? & _ & H)];
  [first [by eapply construct_Raise | by eapply getattr_Raise
         | by eapply attach_Raise] |].

Lemma schemas_body_Raise M rs ex st row e :
  schemas_body M rs ex st row = Raise e -> decoding_error e.
Proof.
  unfold schemas_body. intros H. do 4 raise_step H.
  match type of H with (let '(_, _) := ?p in _) = _ => destruct p end.
  raise_step H.
  match type of H with (let '(_, _) := ?p in _) = _ => destruct p end.
  done.
Qed.

Lemma tables_body_Raise M al rs ex inf st row e :
  tables_body M al rs ex inf st row = Raise e -> decoding_error e.
Proof.
  unfold tables_body. intros H. do 5 raise_step H.
  do 3 (match type of H with (let '(_, _) := ?p in _) = _ => destruct p end;
        raise_step H).
  match type of H with (let '(_, _) := ?p in _) = _ => destruct p end.
  done.
Qed.

Lemma columns_body_Raise M rs ex st row e :
  columns_body M rs ex st row = Raise e -> decoding_error e.
Proof.
  unfold columns_body. intros H. do 7 raise_step H.
  match type of H with (let '(_, _) := ?p in _) = _ => destruct p end.
  raise_step H.
  match type of H with (let '(_, _) := ?p in _) = _ => destruct p end.
  done.
Qed.

(** ** Determinism *)







(** ** Dependency extraction *)

Lemma split_nonempty c s : split c s ≠ [].
Proof.
  destruct s as [|a s]; simpl; [done|].
  destruct (Ascii.eqb a c); [done|]. by destruct (split c s).
Qed.

Lemma remove_char_filter c s :
  list_ascii_of_string (remove_char c s) =
  List.filter (fun a => negb (Ascii.eqb a c)) (list_ascii_of_string s).
Proof.
  induction s as [|a s IH]; simpl; [done|].
  destruct (Ascii.eqb a c); simpl; [done | by rewrite IH].
Qed.

(** The loop never raises and computes the rule of the specification,
    identifier by identifier, in order. *)
Lemma dependencies_loop_spec tables deps log :
  dependencies_loop tables deps log =
  (Ok (deps ++ flat_map spec_dependency_of tables),
   log ++ flat_map spec_warnings_of tables).
Proof.
  revert deps log. induction tables as [|table tables IH]; intros deps log.
  { simpl. by rewrite !app_nil_r. }
  cbn [dependencies_loop flat_map].
  unfold spec_dependency_of at 1, spec_warnings_of at 1.
  pose proof (split_nonempty "."%char table) as Hne.
  destruct (split "."%char table) as [|x [|y [|z l]]]; [done| | |]; simpl;
    rewrite IH, <- ?app_assoc; done.
Qed.

Section DependenciesProperties.

Variable Parser_tables : string -> result (list string).

Lemma dependencies_without_all m :
  t_all m = None -> dependencies Parser_tables m = (Raise AttributeError, []).
Proof.
  intros H. unfold dependencies, dependencies_try, self_all_view_ddl. by rewrite H.
Qed.


End DependenciesProperties.

(** C5.  For a table whose [all] record carries a non-empty view
    definition [s], the parser is given [s] with exactly the characters
    "(" and ")" removed, and when it returns the identifiers [tables] the
    property returns, in order, for each identifier split on ".": nothing
    and one warning when there are more than two components, the
    dependency (schema = first, name = second) when there are two, and
    the dependency (schema = "public", name = the component) when there
    is one. *)
Theorem dependencies_split_rule (Parser_tables : string -> result (list string))
    (m : MetadataTable) (all : instance) (s : string) (tables : list string) :
  t_all m = Some all ->
  getattr all "view_ddl" = Ok (PStr s) ->
  s ≠ EmptyString ->
  Parser_tables (remove_char ")" (remove_char "(" s)) = Ok tables ->
  dependencies Parser_tables m =
    (Ok (flat_map spec_dependency_of tables), flat_map spec_warnings_of tables) ∧
  list_ascii_of_string (remove_char ")" (remove_char "(" s)) =
    List.filter (fun a => negb (Ascii.eqb a "(") && negb (Ascii.eqb a ")"))
      (list_ascii_of_string s).
Proof.
  intros Hall Hddl Hs Hp. split.
  - unfold dependencies, dependencies_try, self_all_view_ddl.
    rewrite Hall, Hddl. simpl.
    destruct (String.eqb s EmptyString) eqn:E; [by apply String.eqb_eq in E|]. simpl.
    rewrite Hp. by rewrite dependencies_loop_spec.
  - rewrite !remove_char_filter.
    induction (list_ascii_of_string s) as [|a l IH]; simpl; [done|].
    destruct (Ascii.eqb a "("); simpl; [done|].
    destruct (Ascii.eqb a ")"); simpl; [done | by rewrite IH].
Qed.

Lemma dependencies_split_rule_witness :
  dependencies (fun _ => Ok ["foo"; "s1.bar"; "a.b.c"]) example_view =
  (Ok [ {| dep_name := "foo"; dep_schema := "public" |};
        {| dep_name := "bar"; dep_schema := "s1" |} ],
   [LogWarning (warning_msg "a.b.c")]).
Proof.
  refine (proj1 (dependencies_split_rule (fun _ => Ok ["foo"; "s1.bar"; "a.b.c"])
                   example_view _ "SELECT * FROM (foo), s1.bar, a.b.c" _
                   eq_refl eq_refl _ eq_refl)).
  discriminate.
Defined.

(** C4.  On a table whose [all] slot the aligner left at [None], the
    [dependencies] property raises: the [try] block fails with
    [AttributeError] on [self.all.view_ddl], and the handler evaluates
    [self.all.view_ddl] again while formatting its message, so the
    exception leaves the property instead of [[]] being returned. *)
Theorem dependencies_raises_without_all
    (Parser_tables : string -> result (list string)) :
  match MetadataTables example_models
          [[PStr "db"; PStr "s"; PStr "t1"; PStr "TABLE"]] [] [] [] [] with
  | Ok [m] =>
      t_all m = None ∧
      dependencies Parser_tables m = (Raise AttributeError, [])
  | _ => False
  end.
Proof. simpl. split; [done|]. by apply dependencies_without_all. Qed.

(** ** Exceptions at the boundary *)




(** ** Metadata projection *)

Lemma asdict_lookup_acc (obj : instance) (acc : gmap string pyval) (k : string) :
  is_Some (foldl (fun d fv => <[fv.1 := fv.2]> d) acc obj !! k) ↔
  k ∈ obj.*1 ∨ is_Some (acc !! k).
Proof.
  revert acc. induction obj as [|[f v] obj IH]; intros acc; simpl.
  - rewrite elem_of_nil. tauto.
  - rewrite IH, elem_of_cons. destruct (decide (f = k)) as [->|Hne].
    + rewrite lookup_insert_eq. split; [intros _; by left; left | intros _; by right].
    + rewrite lookup_insert_ne by done. intuition congruence.
Qed.

(** The keys of [asdict(obj)] are the field names of [obj]. *)
Lemma asdict_lookup_is_Some (obj : instance) (k : string) :
  is_Some (asdict obj !! k) ↔ k ∈ obj.*1.
Proof.
  unfold asdict. rewrite asdict_lookup_acc, lookup_empty.
  split; [intros [?|[? ?]]; done | by left].
Qed.

Lemma for_each_cons {A St} (body : St -> A -> result St) (x : A) (l : list A) (s : St) :
  for_each body (x :: l) s = body s x ≫= for_each body l.
Proof. done. Qed.

Lemma pop_present (d : gmap string pyval) (k : string) (v : pyval) :
  d !! k = Some v -> pop d k = Ok (delete k d).
Proof. intros H. unfold pop. by rewrite H. Qed.

Lemma pop_missing (d : gmap string pyval) (k : string) :
  d !! k = None -> pop d k = Raise (KeyError k).
Proof. intros H. unfold pop. by rewrite H. Qed.

(** Popping pairwise distinct keys that are all present removes exactly
    those keys. *)
Lemma for_each_pop_present (keys : list string) (d : gmap string pyval) :
  NoDup keys -> Forall (fun k => is_Some (d !! k)) keys ->
  for_each pop keys d = Ok (filter (fun kv => kv.1 ∉ keys) d).
Proof.
  revert d. induction keys as [|k keys IH]; intros d Hnd Hall.
  - simpl. f_equal. apply map_eq. intros i. apply option_eq. intros v.
    rewrite map_lookup_filter_Some. simpl. rewrite elem_of_nil. tauto.
  - apply NoDup_cons in Hnd as [Hk Hnd]. apply Forall_cons in Hall as [[v Hv] Hall].
    rewrite for_each_cons, (pop_present _ _ _ Hv). simpl. rewrite IH; [|done|].
    + f_equal. apply map_eq. intros i. apply option_eq. intros w.
      rewrite !map_lookup_filter_Some. simpl. rewrite elem_of_cons.
      destruct (decide (i = k)) as [->|Hne].
      * rewrite lookup_delete_eq. split; [by intros [? _] | intros [_ []]; by left].
      * rewrite lookup_delete_ne by done. intuition congruence.
    + apply Forall_forall. intros k' Hin. rewrite Forall_forall in Hall.
      rewrite lookup_delete_ne; [by apply Hall|]. by intros ->.
Qed.

(** Popping pairwise distinct keys one of which is missing raises
    [KeyError] on a missing key. *)
Lemma for_each_pop_missing (keys : list string) (d : gmap string pyval) :
  NoDup keys -> Exists (fun k => d !! k = None) keys ->
  ∃ k, k ∈ keys ∧ d !! k = None ∧ for_each pop keys d = Raise (KeyError k).
Proof.
  revert d. induction keys as [|k keys IH]; intros d Hnd Hex.
  - by apply Exists_nil in Hex.
  - apply NoDup_cons in Hnd as [Hk Hnd]. rewrite for_each_cons.
    destruct (d !! k) as [v|] eqn:Hv.
    + rewrite (pop_present _ _ _ Hv). simpl.
      apply Exists_cons in Hex as [Hex|Hex]; [congruence|].
      destruct (IH (delete k d) Hnd) as (k' & Hin & Hnone & Hraise).
      { eapply Exists_impl; [exact Hex|]. intros k' Hk'. simpl in *.
        apply lookup_delete_None. by right. }
      exists k'. split; [by right|]. split; [|done].
      apply lookup_delete_None in Hnone as [->|?]; [done | done].
    + rewrite (pop_missing _ _ Hv). exists k. split; [by left|]. done.
Qed.

Lemma wo_none_lookup_acc (l : list (string * pyval)) (acc : gmap string pyval)
    (k : string) (v : pyval) :
  NoDup l.*1 ->
  foldl (fun d kv => if is_not_none kv.2 then <[kv.1 := kv.2]> d else d) acc l !! k
    = Some v ↔
  ((k, v) ∈ l ∧ v ≠ PNone) ∨
  (acc !! k = Some v ∧ ∀ v', (k, v') ∈ l -> v' = PNone).
Proof.
  revert acc. induction l as [|[k0 v0] l IH]; intros acc Hnd.
  - simpl. split.
    + intros H. right. split; [done|]. intros v' Hin. by apply elem_of_nil in Hin.
    + intros [[Hin _]|[H _]]; [by apply elem_of_nil in Hin | done].
  - rewrite fmap_cons in Hnd. apply NoDup_cons in Hnd as [Hk0 Hnd].
    assert (Hfresh : ∀ v', (k0, v') ∉ l).
    { intros v' Hin. apply Hk0. apply list_elem_of_fmap. by exists (k0, v'). }
    cbn [foldl]. rewrite (IH _ Hnd). clear IH. cbn [fst snd].
    destruct (decide (v0 = PNone)) as [->|Hv0].
    + cbn [is_not_none]. split.
      * intros [[Hin Hv]|[Hacc Hl]].
        -- left. split; [by right | done].
        -- right. split; [done|]. intros v' [[= _ ->]|Hin]%elem_of_cons; eauto.
      * intros [[[[= -> ->]|Hin]%elem_of_cons Hv]|[Hacc Hl]].
        -- done.
        -- by left.
        -- right. split; [done|]. intros v' Hin. apply Hl. by right.
    + assert (is_not_none v0 = true) as -> by (by destruct v0).
      split.
      * intros [[Hin Hv]|[Hacc Hl]].
        -- left. split; [by right | done].
        -- destruct (decide (k0 = k)) as [->|Hne].
           ++ rewrite lookup_insert_eq in Hacc. injection Hacc as <-.
              left. split; [by left | done].
           ++ rewrite lookup_insert_ne in Hacc by done. right. split; [done|].
              intros v' [[= ? _]|Hin]%elem_of_cons; [congruence | eauto].
      * intros [[[[= -> ->]|Hin]%elem_of_cons Hv]|[Hacc Hl]].
        -- right. rewrite lookup_insert_eq. split; [done|].
           intros v' Hin. by apply Hfresh in Hin.
        -- by left.
        -- destruct (decide (k0 = k)) as [->|Hne].
           ++ exfalso. apply Hv0, Hl. by left.
           ++ right. rewrite lookup_insert_ne by done. split; [done|].
              intros v' Hin. apply Hl. by right.
Qed.

(** The pruning loop keeps exactly the entries whose value is not
    [None]. *)
Lemma wo_none_filter (d : gmap string pyval) :
  wo_none d = filter (fun kv => kv.2 ≠ PNone) d.
Proof.
  apply map_eq. intros k. apply option_eq. intros v. unfold wo_none.
  rewrite wo_none_lookup_acc by apply NoDup_fst_map_to_list.
  rewrite map_lookup_filter_Some, elem_of_map_to_list, lookup_empty. simpl.
  split; [by intros [?|[? _]] | by left].
Qed.

Section ProjectionProperties.

Context {Extension : Type}.
Variable MetadataExtension : string -> gmap string pyval -> result Extension.

Lemma append_present (l : list Extension) (url : string) (obj : instance)
    (keys : gset string) :
  (∀ k, k ∈ keys -> k ∈ obj.*1) ->
  _append_metadata_extension MetadataExtension l url (Some obj) (Some keys) =
    appended_with MetadataExtension l url
      (filter (fun kv => kv.2 ≠ PNone)
         (filter (fun kv => kv.1 ∉ keys) (asdict obj))).
Proof.
  intros Hsub. unfold _append_metadata_extension, appended_with.
  rewrite for_each_pop_present.
  - rewrite wo_none_filter.
    assert (filter (fun kv : string * pyval => kv.1 ∉ elements keys) (asdict obj) =
            filter (fun kv : string * pyval => kv.1 ∉ keys) (asdict obj)) as ->; [|done].
    apply map_filter_ext. intros k v _. simpl. by rewrite elem_of_elements.
  - apply NoDup_elements.
  - apply Forall_forall. intros k Hk%elem_of_elements.
    by apply asdict_lookup_is_Some, Hsub.
Qed.

Lemma append_no_exclusion (l : list Extension) (url : string) (obj : instance) :
  _append_metadata_extension MetadataExtension l url (Some obj) None =
    appended_with MetadataExtension l url
      (filter (fun kv => kv.2 ≠ PNone) (asdict obj)).
Proof. unfold _append_metadata_extension, appended_with. by rewrite wo_none_filter. Qed.

End ProjectionProperties.

Lemma example_mapping :
  filter (fun kv : string * pyval => kv.2 ≠ PNone)
    (filter (fun kv : string * pyval => kv.1 ∉ ({["c"]} : gset string))
       (asdict [("a", PInt 1); ("b", PNone); ("c", PStr "x")])) =
  {["a" := PInt 1]}.
Proof. vm_compute. reflexivity. Qed.

(** C7, as amended.  For an absent slot the list is left as it is.  For
    a present slot, with no exclusion set or with an exclusion set whose
    keys are all field names of the slot, the projector calls the
    [MetadataExtension] constructor on the schema identifier and on the
    mapping that holds the slot's fields without the excluded keys and
    without the keys whose value is [None]; when the constructor accepts
    them, exactly the one object it builds is appended, and when it
    rejects them its exception leaves the call and nothing is appended.
    On the fields a = 1, b = None, c = "x" with exclusion set {c} the
    mapping is a = 1. *)
Theorem append_metadata_extension_projects {Extension : Type}
    (MetadataExtension : string -> gmap string pyval -> result Extension) :
  (∀ l url keys,
     _append_metadata_extension MetadataExtension l url None keys = (l, Ok ())) ∧
  (∀ l url obj,
     _append_metadata_extension MetadataExtension l url (Some obj) None =
       appended_with MetadataExtension l url
         (filter (fun kv => kv.2 ≠ PNone) (asdict obj))) ∧
  (∀ l url obj (keys : gset string),
     (∀ k, k ∈ keys -> k ∈ obj.*1) ->
     _append_metadata_extension MetadataExtension l url (Some obj) (Some keys) =
       appended_with MetadataExtension l url
         (filter (fun kv => kv.2 ≠ PNone)
            (filter (fun kv => kv.1 ∉ keys) (asdict obj)))) ∧
  (∀ l url mapping extension,
     MetadataExtension url mapping = Ok extension ->
     appended_with MetadataExtension l url mapping = (l ++ [extension], Ok ())) ∧
  (∀ l url mapping e,
     MetadataExtension url mapping = Raise e ->
     appended_with MetadataExtension l url mapping = (l, Raise e)) ∧
  (∀ l url,
     _append_metadata_extension MetadataExtension l url
       (Some [("a", PInt 1); ("b", PNone); ("c", PStr "x")]) (Some {["c"]}) =
       appended_with MetadataExtension l url {["a" := PInt 1]}).
Proof.
  repeat apply conj.
  - done.
  - apply append_no_exclusion.
  - apply append_present.
  - intros l url mapping extension H. unfold appended_with. by rewrite H.
  - intros l url mapping e H. unfold appended_with. by rewrite H.
  - intros l url. rewrite append_present, example_mapping; [done|].
    intros k ->%elem_of_singleton. by right; right; left.
Qed.

Lemma append_metadata_extension_projects_witness :
  _append_metadata_extension example_MetadataExtension [] "https://schema"
    (Some [("a", PInt 1); ("b", PNone); ("c", PStr "x")]) (Some {["c"; "a"]}) =
    ([ {| schema_url := "https://schema";
          metadata :=
            filter (fun kv => kv.2 ≠ PNone)
              (filter (fun kv => kv.1 ∉ ({["c"; "a"]} : gset string))
                 (asdict [("a", PInt 1); ("b", PNone); ("c", PStr "x")])) |} ],
     Ok ()).
Proof.
  destruct (append_metadata_extension_projects example_MetadataExtension)
    as (_ & _ & Hkeys & Hok & _).
  rewrite (Hkeys [] "https://schema" [("a", PInt 1); ("b", PNone); ("c", PStr "x")]
             {["c"; "a"]}).
  - exact (Hok [] "https://schema" _ _ eq_refl).
  - intros k Hk. apply (bool_decide_unpack _).
    apply elem_of_union in Hk as [Hk|Hk]; apply elem_of_singleton in Hk;
      rewrite Hk; vm_compute; exact I.
Defined.

(** Two inputs on which nothing is appended although the slot is
    present: an exclusion key that is not a field of the slot, whatever
    the constructor does, and a schema identifier that the constructor
    rejects. *)
Lemma append_missing_excluded_key :
  (∀ (Extension : Type)
     (MetadataExtension : string -> gmap string pyval -> result Extension),
     _append_metadata_extension MetadataExtension [] "https://schema"
       (Some [("a", PInt 1)]) (Some {["z"]}) = ([], Raise (KeyError "z"))) ∧
  _append_metadata_extension example_MetadataExtension [] "schema"
    (Some [("a", PInt 1)]) None = ([], Raise ValidationError).
Proof. split; [intros Extension MetadataExtension|]; vm_compute; reflexivity. Qed.

(** C10.  When the exclusion set has a key that is not a field name of
    the slot, the call raises [KeyError] on such a key and the output
    list is left as it was, whatever the constructor would do. *)
Theorem append_metadata_extension_key_error {Extension : Type}
    (MetadataExtension : string -> gmap string pyval -> result Extension)
    (l : list Extension) (url : string) (obj : instance) (keys : gset string) :
  (∃ k, k ∈ keys ∧ k ∉ obj.*1) ->
  ∃ k, k ∈ keys ∧ (k ∉ obj.*1) ∧
       _append_metadata_extension MetadataExtension l url (Some obj) (Some keys) =
         (l, Raise (KeyError k)).
Proof.
  intros (k0 & Hin & Hmiss).
  destruct (for_each_pop_missing (elements keys) (asdict obj)) as (k & Hk & Hnone & Hr).
  - apply NoDup_elements.
  - apply Exists_exists. exists k0. split; [by apply elem_of_elements|].
    apply eq_None_not_Some. by rewrite asdict_lookup_is_Some.
  - exists k. split; [by apply elem_of_elements|]. split.
    + rewrite <- asdict_lookup_is_Some, Hnone. by intros [? ?].
    + unfold _append_metadata_extension. by rewrite Hr.
Qed.

Lemma append_metadata_extension_key_error_witness :
  ∃ k, k ∈ ({["z"]} : gset string) ∧ (k ∉ [("a", PInt 1); ("b", PNone)].*1) ∧
       _append_metadata_extension example_MetadataExtension [] "https://schema"
         (Some [("a", PInt 1); ("b", PNone)])
         (Some {["z"]}) = ([], Raise (KeyError k)).
Proof.
  apply (append_metadata_extension_key_error example_MetadataExtension [] "https://schema"
           [("a", PInt 1); ("b", PNone)] {["z"]}).
  exists "z". split.
  - apply elem_of_singleton. reflexivity.
  - apply (bool_decide_unpack _). vm_compute. exact I.
Defined.

(** * Further properties *)

(** ** What a run does with an auxiliary list *)

Lemma attach_attach_step cls rows index key slot index' :
  attach cls rows index key = Ok (slot, index') ->
  attach_step cls rows key index index' slot.
Proof.
  unfold attach, attach_step. destruct (rows !! index) as [row|] eqn:Hrow.
  - intros H. inv_bind H. inv_bind H. destruct a0; simplify_eq; [right | left]; eauto 10.
  - intros; simplify_eq. by left.
Qed.

(** A chain of comparisons that came out true read every key field and
    found it [==] to the expected value. *)
Lemma keys_match_true r key :
  keys_match r key = Ok true ->
  ∃ vs, getattrs r key.*1 = Ok vs ∧ canon <$> vs = canon <$> key.*2.
Proof.
  induction key as [|[f k] key IH]; intros H.
  - by exists [].
  - cbn [keys_match] in H. inv_bind H. destruct (py_eq a k) eqn:E; [|done].
    destruct (IH H) as (vs & Hvs & Hc). exists (a :: vs).
    rewrite !fmap_cons. cbn [getattrs fst snd]. rewrite Ha. simpl.
    rewrite Hvs. simpl. split; [done|].
    apply py_eq_canon in E. by rewrite E, Hc.
Qed.

Lemma for_each_slot_run {A St B} (body : St -> A -> result St) (ms : St -> list B)
    (idx : St -> nat) (slot : B -> option instance)
    (key : B -> list (string * pyval)) (cls : dataclass) (rows : list tuple) :
  (∀ s x s1, body s x = Ok s1 ->
     ∃ m, ms s1 = ms s ++ [m] ∧ attach_step cls rows (key m) (idx s) (idx s1) (slot m)) ->
  ∀ l s s', for_each body l s = Ok s' ->
    ∃ new, ms s' = ms s ++ new ∧
      Forall2 (fun row r => construct cls row = Ok r)
        (take (length (omap slot new)) (drop (idx s) rows)) (omap slot new) ∧
      Forall (fun m => ∀ r, slot m = Some r -> keys_match r (key m) = Ok true) new.
Proof.
  intros Hbody l. induction l as [|x l IH]; intros s s' H; simpl in H.
  - injection H as <-. exists []. rewrite app_nil_r. simpl. by repeat split.
  - inv_bind H. destruct (Hbody _ _ _ Ha) as (m & Hm & Hstep).
    destruct (IH _ _ H) as (new & Hnew & HF & Hkeys).
    exists (m :: new). split; [by rewrite Hnew, Hm, <- app_assoc|].
    destruct Hstep as [[Hslot Hidx]|(row & r & Hrow & Hr & Hk & Hslot & Hidx)].
    + cbn [omap list_omap]. rewrite Hslot. rewrite Hidx in HF. split; [done|].
      constructor; [|done]. intros r Hr. congruence.
    + cbn [omap list_omap]. rewrite Hslot. rewrite Hidx in HF. split.
      * cbn [length]. rewrite (drop_S _ _ _ Hrow). cbn [take]. by constructor.
      * constructor; [|done]. intros r' Hr'. congruence.
Qed.

Section AlignersSteps.

Variable M : models.

Lemma schemas_body_steps rs ex st row st1 :
  schemas_body M rs ex st row = Ok st1 ->
  ∃ m, ss_ms st1 = ss_ms st ++ [m] ∧
       attach_step (MetadataSchemaRedshift M) rs (schema_redshift_probe m)
         (ss_redshift_index st) (ss_redshift_index st1) (s_redshift m) ∧
       attach_step (MetadataSchemaExternal M) ex (schema_external_probe m)
         (ss_external_index st) (ss_external_index st1) (s_external m).
Proof.
  unfold schemas_body. intros H.
  inv_bind H. inv_bind H. inv_bind H.
  apply bind_Ok_inv in H as ([s1 i1] & H1%attach_attach_step & H).
  apply bind_Ok_inv in H as ([s2 i2] & H2%attach_attach_step & H).
  injection H as <-. eexists. simpl. split; [done|]. by split.
Qed.

Lemma tables_body_steps al rs ex inf st row st1 :
  tables_body M al rs ex inf st row = Ok st1 ->
  ∃ m, ts_ms st1 = ts_ms st ++ [m] ∧
       attach_step (MetadataTableAll M) al (table_all_probe m)
         (ts_all_index st) (ts_all_index st1) (t_all m) ∧
       attach_step (MetadataTableRedshift M) rs (table_redshift_probe m)
         (ts_redshift_index st) (ts_redshift_index st1) (t_redshift m) ∧
       attach_step (MetadataTableExternal M) ex (table_external_probe m)
         (ts_external_index st) (ts_external_index st1) (t_external m) ∧
       attach_step (MetadataTableInfo M) inf (table_info_probe m)
         (ts_info_index st) (ts_info_index st1) (t_info m).
Proof.
  unfold tables_body. intros H.
  inv_bind H. inv_bind H. inv_bind H. inv_bind H.
  apply bind_Ok_inv in H as ([s1 i1] & H1%attach_attach_step & H).
  apply bind_Ok_inv in H as ([s2 i2] & H2%attach_attach_step & H).
  apply bind_Ok_inv in H as ([s3 i3] & H3%attach_attach_step & H).
  apply bind_Ok_inv in H as ([s4 i4] & H4%attach_attach_step & H).
  injection H as <-. eexists. simpl. split; [done|]. by repeat split.
Qed.

Lemma columns_body_steps rs ex st row st1 :
  columns_body M rs ex st row = Ok st1 ->
  ∃ m, cs_ms st1 = cs_ms st ++ [m] ∧
       attach_step (MetadataColumnRedshift M) rs (column_redshift_probe m)
         (cs_redshift_index st) (cs_redshift_index st1) (c_redshift m) ∧
       attach_step (MetadataColumnExternal M) ex (column_external_probe m)
         (cs_external_index st) (cs_external_index st1) (c_external m).
Proof.
  unfold columns_body. intros H.
  inv_bind H. inv_bind H. inv_bind H. inv_bind H. inv_bind H. inv_bind H.
  apply bind_Ok_inv in H as ([s1 i1] & H1%attach_attach_step & H).
  apply bind_Ok_inv in H as ([s2 i2] & H2%attach_attach_step & H).
  injection H as <-. eexists. simpl. split; [done|]. by split.
Qed.

Ltac slot_run_of Hloop body ms idx slot key cls rows Hsteps :=
  let new := fresh "new" in
  let Hnew := fresh "Hnew" in
  let HF := fresh "HF" in
  let HK := fresh "HK" in
  destruct (for_each_slot_run body ms idx slot key cls rows) with (2 := Hloop)
    as (new & Hnew & HF & HK);
  [ let Hb := fresh "Hb" in
    let m := fresh "m" in
    let Hm := fresh "Hm" in
    let Hrest := fresh "Hrest" in
    intros ? ? ? Hb; destruct (Hsteps _ _ _ Hb) as (m & Hm & Hrest);
    exists m; split; [exact Hm|];
    repeat match goal with H : _ ∧ _ |- _ => destruct H end; assumption
  | simpl in Hnew, HF; rewrite drop_0 in HF; subst; by split ].

Lemma MetadataSchemas_slot_runs base rs ex items :
  MetadataSchemas M base rs ex = Ok items ->
  slot_run (MetadataSchemaRedshift M) rs schema_redshift_probe s_redshift items ∧
  slot_run (MetadataSchemaExternal M) ex schema_external_probe s_external items.
Proof.
  unfold MetadataSchemas, schemas_loop. intros H. inv_bind H. injection H as <-.
  split.
  - slot_run_of Ha (schemas_body M rs ex) ss_ms ss_redshift_index s_redshift
      schema_redshift_probe (MetadataSchemaRedshift M) rs (schemas_body_steps rs ex).
  - slot_run_of Ha (schemas_body M rs ex) ss_ms ss_external_index s_external
      schema_external_probe (MetadataSchemaExternal M) ex (schemas_body_steps rs ex).
Qed.

Lemma MetadataTables_slot_runs base al rs ex inf items :
  MetadataTables M base al rs ex inf = Ok items ->
  slot_run (MetadataTableAll M) al table_all_probe t_all items ∧
  slot_run (MetadataTableRedshift M) rs table_redshift_probe t_redshift items ∧
  slot_run (MetadataTableExternal M) ex table_external_probe t_external items ∧
  slot_run (MetadataTableInfo M) inf table_info_probe t_info items.
Proof.
  unfold MetadataTables, tables_loop. intros H. inv_bind H. injection H as <-.
  split; [|split; [|split]].
  - slot_run_of Ha (tables_body M al rs ex inf) ts_ms ts_all_index t_all
      table_all_probe (MetadataTableAll M) al (tables_body_steps al rs ex inf).
  - slot_run_of Ha (tables_body M al rs ex inf) ts_ms ts_redshift_index t_redshift
      table_redshift_probe (MetadataTableRedshift M) rs (tables_body_steps al rs ex inf).
  - slot_run_of Ha (tables_body M al rs ex inf) ts_ms ts_external_index t_external
      table_external_probe (MetadataTableExternal M) ex (tables_body_steps al rs ex inf).
  - slot_run_of Ha (tables_body M al rs ex inf) ts_ms ts_info_index t_info
      table_info_probe (MetadataTableInfo M) inf (tables_body_steps al rs ex inf).
Qed.

Lemma MetadataColumns_slot_runs base rs ex items :
  MetadataColumns M base rs ex = Ok items ->
  slot_run (MetadataColumnRedshift M) rs column_redshift_probe c_redshift items ∧
  slot_run (MetadataColumnExternal M) ex column_external_probe c_external items.
Proof.
  unfold MetadataColumns, columns_loop. intros H. inv_bind H. injection H as <-.
  split.
  - slot_run_of Ha (columns_body M rs ex) cs_ms cs_redshift_index c_redshift
      column_redshift_probe (MetadataColumnRedshift M) rs (columns_body_steps rs ex).
  - slot_run_of Ha (columns_body M rs ex) cs_ms cs_external_index c_external
      column_external_probe (MetadataColumnExternal M) ex (columns_body_steps rs ex).
Qed.

End AlignersSteps.

Lemma slot_run_no_misattribution {B} cls rows (key : B -> list (string * pyval))
    (slot : B -> option instance) (items : list B) :
  slot_run cls rows key slot items -> no_misattribution key slot items.
Proof.
  intros [_ HK] m r Hm Hs. rewrite Forall_forall in HK.
  by apply keys_match_true, (HK m Hm r).
Qed.

Lemma slot_run_attached_prefix {B} cls rows (key : B -> list (string * pyval))
    (slot : B -> option instance) (items : list B) :
  slot_run cls rows key slot items -> attached_prefix cls rows slot items.
Proof.
  intros [HF _]. split; [|done].
  apply Forall2_length in HF. rewrite length_take in HF. lia.
Qed.

Lemma slot_run_blocked {B} cls rows (key : B -> list (string * pyval))
    (slot : B -> option instance) (items : list B) :
  slot_run cls rows key slot items -> blocked_by_unmatched cls rows key slot items.
Proof.
  intros [HF HK] n row Hrow Hno.
  destruct (decide (length (omap slot items) ≤ n)) as [|Hlt]; [done|]. exfalso.
  assert (Htake : take (length (omap slot items)) rows !! n = Some row).
  { rewrite lookup_take_lt by lia. done. }
  destruct (Forall2_lookup_l _ _ _ _ _ HF Htake) as (r & Hr & Hdec).
  apply list_elem_of_lookup_2, list_elem_of_omap in Hr as (m & Hm & Hslot).
  rewrite Forall_forall in HK.
  destruct (keys_match_true _ _ (HK m Hm r Hslot)) as (vs & Hvs & Hc).
  apply (Hno m Hm). unfold row_key. rewrite Hdec. simpl. rewrite Hvs. simpl.
  by rewrite Hc.
Qed.

Lemma slot_run_empty {B} cls (key : B -> list (string * pyval))
    (slot : B -> option instance) (items : list B) (m : B) :
  slot_run cls [] key slot items -> m ∈ items -> slot m = None.
Proof.
  intros [Hlen _]%slot_run_attached_prefix Hm.
  destruct (slot m) as [r|] eqn:Hs; [|done]. exfalso.
  assert (Hr : r ∈ omap slot items) by (apply list_elem_of_omap; eauto).
  destruct (omap slot items); [by apply elem_of_nil in Hr | simpl in Hlen; lia].
Qed.

(** X1.  No aligner attaches a row to the wrong object: in any output,
    the key fields of every attached auxiliary record can be read and
    are [==], one by one, to the canonical identity fields of the object
    that holds it. *)
Theorem aligner_no_misattribution (M : models) :
  (∀ base rs ex items,
     MetadataSchemas M base rs ex = Ok items ->
     no_misattribution schema_redshift_probe s_redshift items ∧
     no_misattribution schema_external_probe s_external items) ∧
  (∀ base al rs ex inf items,
     MetadataTables M base al rs ex inf = Ok items ->
     no_misattribution table_all_probe t_all items ∧
     no_misattribution table_redshift_probe t_redshift items ∧
     no_misattribution table_external_probe t_external items ∧
     no_misattribution table_info_probe t_info items) ∧
  (∀ base rs ex items,
     MetadataColumns M base rs ex = Ok items ->
     no_misattribution column_redshift_probe c_redshift items ∧
     no_misattribution column_external_probe c_external items).
Proof.
  split; [|split].
  - intros base rs ex items H.
    destruct (MetadataSchemas_slot_runs M _ _ _ _ H) as (H1 & H2).
    eauto using slot_run_no_misattribution.
  - intros base al rs ex inf items H.
    destruct (MetadataTables_slot_runs M _ _ _ _ _ _ H) as (H1 & H2 & H3 & H4).
    eauto 10 using slot_run_no_misattribution.
  - intros base rs ex items H.
    destruct (MetadataColumns_slot_runs M _ _ _ _ H) as (H1 & H2).
    eauto using slot_run_no_misattribution.
Qed.

Lemma aligner_no_misattribution_witness :
  ∃ items,
    MetadataTables example_models example_tables_base example_tables_all
      example_tables_redshift example_tables_external [] = Ok items ∧
    no_misattribution table_redshift_probe t_redshift items.
Proof.
  eexists. split; [vm_compute; reflexivity|].
  apply (proj1 (proj2 (aligner_no_misattribution example_models))
           example_tables_base example_tables_all example_tables_redshift
           example_tables_external [] _ eq_refl).
Defined.

(** X2.  In any output of an aligner, the records attached from one
    auxiliary list are, read in output order, the decoded first rows of
    that list: no auxiliary row is attached to two objects, none is
    passed over in favour of a later one, and at most as many objects get
    the slot as the list has rows. *)
Theorem aligner_attached_prefix (M : models) :
  (∀ base rs ex items,
     MetadataSchemas M base rs ex = Ok items ->
     attached_prefix (MetadataSchemaRedshift M) rs s_redshift items ∧
     attached_prefix (MetadataSchemaExternal M) ex s_external items) ∧
  (∀ base al rs ex inf items,
     MetadataTables M base al rs ex inf = Ok items ->
     attached_prefix (MetadataTableAll M) al t_all items ∧
     attached_prefix (MetadataTableRedshift M) rs t_redshift items ∧
     attached_prefix (MetadataTableExternal M) ex t_external items ∧
     attached_prefix (MetadataTableInfo M) inf t_info items) ∧
  (∀ base rs ex items,
     MetadataColumns M base rs ex = Ok items ->
     attached_prefix (MetadataColumnRedshift M) rs c_redshift items ∧
     attached_prefix (MetadataColumnExternal M) ex c_external items).
Proof.
  split; [|split].
  - intros base rs ex items H.
    destruct (MetadataSchemas_slot_runs M _ _ _ _ H) as (H1 & H2).
    eauto using slot_run_attached_prefix.
  - intros base al rs ex inf items H.
    destruct (MetadataTables_slot_runs M _ _ _ _ _ _ H) as (H1 & H2 & H3 & H4).
    eauto 10 using slot_run_attached_prefix.
  - intros base rs ex items H.
    destruct (MetadataColumns_slot_runs M _ _ _ _ H) as (H1 & H2).
    eauto using slot_run_attached_prefix.
Qed.

Lemma aligner_attached_prefix_witness :
  ∃ items,
    MetadataTables example_models example_tables_base example_tables_all
      example_tables_redshift example_tables_external [] = Ok items ∧
    attached_prefix (MetadataTableRedshift example_models)
      example_tables_redshift t_redshift items.
Proof.
  eexists. split; [vm_compute; reflexivity|].
  apply (proj1 (proj2 (aligner_attached_prefix example_models))
           example_tables_base example_tables_all example_tables_redshift
           example_tables_external [] _ eq_refl).
Defined.

(** X3.  An empty auxiliary list leaves its slot [None] on every object
    of the output. *)
Theorem aligner_empty_auxiliary (M : models) :
  (∀ base ex items m,
     MetadataSchemas M base [] ex = Ok items -> m ∈ items -> s_redshift m = None) ∧
  (∀ base rs items m,
     MetadataSchemas M base rs [] = Ok items -> m ∈ items -> s_external m = None) ∧
  (∀ base rs ex inf items m,
     MetadataTables M base [] rs ex inf = Ok items -> m ∈ items -> t_all m = None) ∧
  (∀ base al ex inf items m,
     MetadataTables M base al [] ex inf = Ok items -> m ∈ items ->
     t_redshift m = None) ∧
  (∀ base al rs inf items m,
     MetadataTables M base al rs [] inf = Ok items -> m ∈ items ->
     t_external m = None) ∧
  (∀ base al rs ex items m,
     MetadataTables M base al rs ex [] = Ok items -> m ∈ items -> t_info m = None) ∧
  (∀ base ex items m,
     MetadataColumns M base [] ex = Ok items -> m ∈ items -> c_redshift m = None) ∧
  (∀ base rs items m,
     MetadataColumns M base rs [] = Ok items -> m ∈ items -> c_external m = None).
Proof.
  repeat apply conj.
  - intros base ex items m H.
    destruct (MetadataSchemas_slot_runs M _ _ _ _ H) as (H1 & H2).
    by eapply slot_run_empty.
  - intros base rs items m H.
    destruct (MetadataSchemas_slot_runs M _ _ _ _ H) as (H1 & H2).
    by eapply slot_run_empty.
  - intros base rs ex inf items m H.
    destruct (MetadataTables_slot_runs M _ _ _ _ _ _ H) as (H1 & H2 & H3 & H4).
    by eapply slot_run_empty.
  - intros base al ex inf items m H.
    destruct (MetadataTables_slot_runs M _ _ _ _ _ _ H) as (H1 & H2 & H3 & H4).
    by eapply slot_run_empty.
  - intros base al rs inf items m H.
    destruct (MetadataTables_slot_runs M _ _ _ _ _ _ H) as (H1 & H2 & H3 & H4).
    by eapply slot_run_empty.
  - intros base al rs ex items m H.
    destruct (MetadataTables_slot_runs M _ _ _ _ _ _ H) as (H1 & H2 & H3 & H4).
    by eapply slot_run_empty.
  - intros base ex items m H.
    destruct (MetadataColumns_slot_runs M _ _ _ _ H) as (H1 & H2).
    by eapply slot_run_empty.
  - intros base rs items m H.
    destruct (MetadataColumns_slot_runs M _ _ _ _ H) as (H1 & H2).
    by eapply slot_run_empty.
Qed.

Lemma aligner_empty_auxiliary_witness :
  ∃ items,
    MetadataTables example_models example_tables_base example_tables_all
      example_tables_redshift example_tables_external [] = Ok items ∧
    ∀ m, m ∈ items -> t_info m = None.
Proof.
  eexists. split; [vm_compute; reflexivity|]. intros m.
  apply (proj1 (proj2 (proj2 (proj2 (proj2 (proj2
           (aligner_empty_auxiliary example_models))))))
           example_tables_base example_tables_all example_tables_redshift
           example_tables_external _ m eq_refl).
Defined.

(** X4.  An auxiliary row whose identity key no object of the output
    has stops the scan of its list: if such a row stands at index [n],
    fewer than or exactly [n] objects get the slot, so by X2 neither that
    row nor any row after it is ever attached. *)
Theorem aligner_blocked_by_unmatched (M : models) :
  (∀ base rs ex items,
     MetadataSchemas M base rs ex = Ok items ->
     blocked_by_unmatched (MetadataSchemaRedshift M) rs
       schema_redshift_probe s_redshift items ∧
     blocked_by_unmatched (MetadataSchemaExternal M) ex
       schema_external_probe s_external items) ∧
  (∀ base al rs ex inf items,
     MetadataTables M base al rs ex inf = Ok items ->
     blocked_by_unmatched (MetadataTableAll M) al table_all_probe t_all items ∧
     blocked_by_unmatched (MetadataTableRedshift M) rs
       table_redshift_probe t_redshift items ∧
     blocked_by_unmatched (MetadataTableExternal M) ex
       table_external_probe t_external items ∧
     blocked_by_unmatched (MetadataTableInfo M) inf table_info_probe t_info items) ∧
  (∀ base rs ex items,
     MetadataColumns M base rs ex = Ok items ->
     blocked_by_unmatched (MetadataColumnRedshift M) rs
       column_redshift_probe c_redshift items ∧
     blocked_by_unmatched (MetadataColumnExternal M) ex
       column_external_probe c_external items).
Proof.
  split; [|split].
  - intros base rs ex items H.
    destruct (MetadataSchemas_slot_runs M _ _ _ _ H) as (H1 & H2).
    eauto using slot_run_blocked.
  - intros base al rs ex inf items H.
    destruct (MetadataTables_slot_runs M _ _ _ _ _ _ H) as (H1 & H2 & H3 & H4).
    eauto 10 using slot_run_blocked.
  - intros base rs ex items H.
    destruct (MetadataColumns_slot_runs M _ _ _ _ H) as (H1 & H2).
    eauto using slot_run_blocked.
Qed.

Lemma aligner_blocked_by_unmatched_witness :
  ∃ items,
    MetadataTables example_models example_tables_base example_tables_all
      example_tables_redshift example_tables_external [] = Ok items ∧
    length (omap t_external items) ≤ 0.
Proof.
  eexists. split; [vm_compute; reflexivity|].
  refine (proj1 (proj2 (proj2 (proj1 (proj2 (aligner_blocked_by_unmatched example_models))
                    example_tables_base example_tables_all example_tables_redshift
                    example_tables_external [] _ eq_refl)))
            0 [PStr "db"; PStr "spectrum"; PStr "e1"; PStr "s3://bucket/e1"] eq_refl _).
  intros m Hm.
  repeat (apply elem_of_cons in Hm as [->|Hm]; [vm_compute; discriminate|]).
  by apply elem_of_nil in Hm.
Defined.

(** ** Decoding by position *)

Lemma getattr_zip_position (cls : dataclass) (row : tuple) (f : string) (v : pyval) :
  NoDup cls -> length row = length cls ->
  getattr (zip cls row) f = Ok v -> decoded_at cls row f v.
Proof.
  revert row. induction cls as [|f0 cls IH]; intros row Hnd Hlen Hget; [done|].
  destruct row as [|v0 row]; [done|]. apply NoDup_cons in Hnd as [Hf0 Hnd].
  simpl in Hget. destruct (String.eqb f0 f) eqn:E.
  - apply String.eqb_eq in E as ->. injection Hget as ->. split; [by exists 0|].
    intros [|j] Hj; [done|]. simpl in Hj. exfalso. apply Hf0.
    by eapply list_elem_of_lookup_2.
  - apply String.eqb_neq in E. simpl in Hlen.
    destruct (IH row Hnd ltac:(lia) Hget) as [[j Hj] Hall].
    split; [by exists (S j)|]. intros [|j'] Hj'; simpl in Hj'; [congruence|].
    by apply Hall.
Qed.

Lemma construct_decoded_at (cls : dataclass) (row : tuple) (r : instance)
    (f : string) (v : pyval) :
  NoDup cls -> construct cls row = Ok r -> getattr r f = Ok v ->
  decoded_at cls row f v.
Proof.
  unfold construct. intros Hnd Hr Hget. case_bool_decide; [|done].
  injection Hr as <-. by apply getattr_zip_position.
Qed.

(** X5.  Identity fields are decoded by position.  When the field names
    of a base class are pairwise distinct (as those of any dataclass
    are), each canonical identity field of the i-th output object is the
    value that the i-th base row holds at the position of the
    corresponding field in the class: [database_name], [schema_name] for
    schemas; [table_catalog], [table_schema], [table_name] for tables;
    [database_name], [schema_name], [table_name], [column_name],
    [ordinal_position] for columns. *)
Theorem aligner_identity_positional (M : models) :
  (∀ base rs ex items i row m,
     NoDup (MetadataSchemaBase M) ->
     MetadataSchemas M base rs ex = Ok items ->
     base !! i = Some row -> items !! i = Some m ->
     decoded_at (MetadataSchemaBase M) row "database_name" (s_database_name m) ∧
     decoded_at (MetadataSchemaBase M) row "schema_name" (s_schema_name m)) ∧
  (∀ base al rs ex inf items i row m,
     NoDup (MetadataTableBase M) ->
     MetadataTables M base al rs ex inf = Ok items ->
     base !! i = Some row -> items !! i = Some m ->
     decoded_at (MetadataTableBase M) row "table_catalog" (t_database_name m) ∧
     decoded_at (MetadataTableBase M) row "table_schema" (t_schema_name m) ∧
     decoded_at (MetadataTableBase M) row "table_name" (t_table_name m)) ∧
  (∀ base rs ex items i row m,
     NoDup (MetadataColumnBase M) ->
     MetadataColumns M base rs ex = Ok items ->
     base !! i = Some row -> items !! i = Some m ->
     decoded_at (MetadataColumnBase M) row "database_name" (c_database_name m) ∧
     decoded_at (MetadataColumnBase M) row "schema_name" (c_schema_name m) ∧
     decoded_at (MetadataColumnBase M) row "table_name" (c_table_name m) ∧
     decoded_at (MetadataColumnBase M) row "column_name" (c_column_name m) ∧
     decoded_at (MetadataColumnBase M) row "ordinal_position" (c_ordinal_position m)).
Proof.
  split; [|split].
  - intros base rs ex items i row m Hnd H Hrow Hm.
    apply MetadataSchemas_from_base in H.
    destruct (Forall2_lookup_lr _ _ _ _ _ _ H Hrow Hm) as (b & Hb & _ & H1 & H2).
    eauto using construct_decoded_at.
  - intros base al rs ex inf items i row m Hnd H Hrow Hm.
    apply MetadataTables_from_base in H.
    destruct (Forall2_lookup_lr _ _ _ _ _ _ H Hrow Hm) as (b & Hb & _ & H1 & H2 & H3).
    eauto 10 using construct_decoded_at.
  - intros base rs ex items i row m Hnd H Hrow Hm.
    apply MetadataColumns_from_base in H.
    destruct (Forall2_lookup_lr _ _ _ _ _ _ H Hrow Hm)
      as (b & Hb & _ & H1 & H2 & H3 & H4 & H5).
    eauto 10 using construct_decoded_at.
Qed.

Lemma aligner_identity_positional_witness :
  decoded_at (MetadataSchemaBase example_models) [PStr "db"; PStr "s"; PNone]
    "database_name" (PStr "db") ∧
  decoded_at (MetadataSchemaBase example_models) [PStr "db"; PStr "s"; PNone]
    "schema_name" (PStr "s").
Proof.
  refine (proj1 (aligner_identity_positional example_models)
            example_schemas_base [] [] _ 1 _
            {| s_database_name := PStr "db"; s_schema_name := PStr "s";
               s_base := Some [("database_name", PStr "db"); ("schema_name", PStr "s");
                               ("schema_owner", PNone)];
               s_redshift := None; s_external := None |}
            _ eq_refl eq_refl eq_refl).
  apply (bool_decide_unpack _). vm_compute. exact I.
Defined.

(** ** Dependency extraction: edge cases and identities *)

Lemma free_of_cons (c a : Ascii.ascii) (s : string) :
  free_of c (String a s) ↔ a ≠ c ∧ free_of c s.
Proof.
  unfold free_of. simpl. rewrite not_elem_of_cons. split; intros [? ?]; split; congruence.
Qed.

Lemma free_of_empty (c : Ascii.ascii) : free_of c EmptyString.
Proof. unfold free_of. simpl. apply not_elem_of_nil. Qed.

(** No component of a split contains the separator. *)
Lemma split_free (c : Ascii.ascii) (s x : string) : x ∈ split c s -> free_of c x.
Proof.
  revert x. induction s as [|a s IH]; intros x; simpl.
  - intros ->%list_elem_of_singleton. apply free_of_empty.
  - destruct (Ascii.eqb a c) eqn:E.
    + intros [->|Hx]%elem_of_cons; [apply free_of_empty | by apply IH].
    + apply Ascii.eqb_neq in E. destruct (split c s) as [|h t]; simpl.
      * intros ->%list_elem_of_singleton. apply free_of_cons. split; [done|].
        apply free_of_empty.
      * intros [->|Hx]%elem_of_cons.
        -- apply free_of_cons. split; [done|]. apply IH. by left.
        -- apply IH. by right.
Qed.

Lemma split_free_single (c : Ascii.ascii) (s : string) :
  free_of c s -> split c s = [s].
Proof.
  induction s as [|a s IH]; [done|]. intros [Ha Hs]%free_of_cons. simpl.
  apply Ascii.eqb_neq in Ha. rewrite Ha. by rewrite (IH Hs).
Qed.

(** Joining two separator-free strings and splitting again gives them
    back. *)
Lemma split_join2 (c : Ascii.ascii) (a b : string) :
  free_of c a -> free_of c b -> split c (a +:+ String c b) = [a; b].
Proof.
  intros Ha Hb. induction a as [|x a IH]; simpl.
  - rewrite Ascii.eqb_refl. by rewrite (split_free_single _ _ Hb).
  - apply free_of_cons in Ha as [Hx Ha]. apply Ascii.eqb_neq in Hx. rewrite Hx.
    by rewrite (IH Ha).
Qed.

(** Splitting and joining with the same separator gives the string
    back. *)
Lemma join_split (c : Ascii.ascii) (s : string) : join c (split c s) = s.
Proof.
  induction s as [|a s IH]; [done|]. simpl.
  pose proof (split_nonempty c s) as Hne.
  destruct (Ascii.eqb a c) eqn:E.
  - apply Ascii.eqb_eq in E as ->. cbn [join].
    destruct (split c s) as [|h t]; [done|]. by rewrite IH.
  - destruct (split c s) as [|h t]; [done|]. cbn [join] in *.
    destruct t as [|h' t]; simpl; by rewrite <- IH.
Qed.

Lemma spec_dependency_warning_one (table : string) :
  length (spec_dependency_of table) + length (spec_warnings_of table) = 1.
Proof.
  unfold spec_dependency_of, spec_warnings_of.
  pose proof (split_nonempty "."%char table) as Hne.
  destruct (split "."%char table) as [|x [|y [|z l]]]; [done| | |]; reflexivity.
Qed.

Lemma spec_dependency_uid_split (table : string) (d : Dependency) :
  d ∈ spec_dependency_of table ->
  split "."%char (uid d) = [dep_schema d; dep_name d].
Proof.
  unfold spec_dependency_of.
  pose proof (split_free "."%char table) as Hfree.
  destruct (split "."%char table) as [|x [|y [|z l]]].
  - by intros ?%elem_of_nil.
  - intros ->%list_elem_of_singleton. unfold uid. simpl dep_schema. simpl dep_name.
    apply (split_join2 "."%char "public" x).
    + unfold free_of. apply (bool_decide_unpack _). vm_compute. exact I.
    + apply Hfree. by left.
  - intros ->%list_elem_of_singleton. unfold uid. simpl dep_schema. simpl dep_name.
    apply (split_join2 "."%char x y); apply Hfree; [by left | by right; left].
  - by intros ?%elem_of_nil.
Qed.

Lemma spec_dependency_identifier_uid (table : string) :
  uid <$> spec_dependency_of table = identifier_uid table.
Proof.
  unfold spec_dependency_of, identifier_uid.
  pose proof (join_split "."%char table) as Hjoin.
  destruct (split "."%char table) as [|x [|y [|z l]]]; simpl in *.
  - done.
  - unfold uid. simpl. by rewrite Hjoin.
  - unfold uid. simpl. by rewrite <- Hjoin.
  - done.
Qed.

Section DependenciesFurther.

Variable Parser_tables : string -> result (list string).

Lemma dependencies_parsed m all s tables :
  t_all m = Some all ->
  getattr all "view_ddl" = Ok (PStr s) ->
  s ≠ EmptyString ->
  Parser_tables (remove_char ")" (remove_char "(" s)) = Ok tables ->
  dependencies Parser_tables m =
    (Ok (flat_map spec_dependency_of tables), flat_map spec_warnings_of tables).
Proof.
  intros Hall Hddl Hs Hp. unfold dependencies, dependencies_try, self_all_view_ddl.
  rewrite Hall, Hddl. simpl.
  destruct (String.eqb s EmptyString) eqn:E; [by apply String.eqb_eq in E|]. simpl.
  rewrite Hp. by rewrite dependencies_loop_spec.
Qed.

(** Whatever the table, a returned dependency list is empty or the rule
    applied to some list of identifiers. *)
Lemma dependencies_Ok_inv m ds log :
  dependencies Parser_tables m = (Ok ds, log) ->
  ds = [] ∨ ∃ tables, ds = flat_map spec_dependency_of tables.
Proof.
  unfold dependencies, dependencies_try.
  destruct (self_all_view_ddl m) as [v|e]; [|done].
  destruct (negb (truthy v)); [intros [= <- _]; by left|].
  destruct (strip_parens v ≫= Parser_tables) as [tables|e].
  - rewrite dependencies_loop_spec. intros [= <- _]. right. by exists tables.
  - intros [= <- _]. by left.
Qed.

End DependenciesFurther.

(** X6.  On a table whose [all] record is present, a view definition
    that is [None], the empty string, or any other falsy value gives an
    empty dependency list and no log entry, and the parser plays no part:
    the result is the same for every parser, failing ones included. *)
Theorem dependencies_empty_definition
    (Parser_tables : string -> result (list string))
    (m : MetadataTable) (all : instance) (view_ddl : pyval) :
  t_all m = Some all ->
  getattr all "view_ddl" = Ok view_ddl ->
  truthy view_ddl = false ->
  dependencies Parser_tables m = (Ok [], []).
Proof.
  intros Hall Hddl Hf. unfold dependencies, dependencies_try, self_all_view_ddl.
  by rewrite Hall, Hddl, Hf.
Qed.

Lemma dependencies_empty_definition_witness :
  dependencies (fun _ => Raise (ParserError "unreachable")) example_plain_table =
  (Ok [], []).
Proof.
  exact (dependencies_empty_definition _ example_plain_table _ PNone
           eq_refl eq_refl eq_refl).
Defined.

(** X7.  On a table whose [all] record is present and whose view
    definition is truthy, a failure while stripping the parentheses (the
    value is not a string) or inside the parser is absorbed: the property
    returns the empty list and logs exactly one exception entry, which
    carries the view definition and the exception. *)
Theorem dependencies_parser_failure
    (Parser_tables : string -> result (list string))
    (m : MetadataTable) (all : instance) (view_ddl : pyval) (e : exn) :
  t_all m = Some all ->
  getattr all "view_ddl" = Ok view_ddl ->
  truthy view_ddl = true ->
  strip_parens view_ddl ≫= Parser_tables = Raise e ->
  dependencies Parser_tables m = (Ok [], [LogException view_ddl e]).
Proof.
  intros Hall Hddl Ht Hfail. unfold dependencies, dependencies_try, self_all_view_ddl.
  rewrite Hall, Hddl, Ht. cbn [negb].
  assert (Hfail' : (strip_parens view_ddl ≫= fun sql => Parser_tables sql) = Raise e)
    by exact Hfail.
  by rewrite Hfail'.
Qed.

Lemma dependencies_parser_failure_witness :
  dependencies (fun _ => Raise (ParserError "unexpected token")) example_view =
  (Ok [], [LogException (PStr "SELECT * FROM (foo), s1.bar, a.b.c")
             (ParserError "unexpected token")]).
Proof.
  exact (dependencies_parser_failure _ example_view _ _ _
           eq_refl eq_refl eq_refl eq_refl).
Defined.

(** X8.  When the parser returns identifiers for a non-empty view
    definition, none of them is lost silently: each identifier gives
    either one dependency or one warning, so the dependencies and the log
    entries together are as many as the identifiers, and every log entry
    is the warning of one of the identifiers. *)
Theorem dependencies_conservation
    (Parser_tables : string -> result (list string))
    (m : MetadataTable) (all : instance) (s : string) (tables : list string) :
  t_all m = Some all ->
  getattr all "view_ddl" = Ok (PStr s) ->
  s ≠ EmptyString ->
  Parser_tables (remove_char ")" (remove_char "(" s)) = Ok tables ->
  ∃ ds log,
    dependencies Parser_tables m = (Ok ds, log) ∧
    length ds + length log = length tables ∧
    ∀ entry, entry ∈ log ->
      ∃ table, table ∈ tables ∧ entry = LogWarning (warning_msg table).
Proof.
  intros Hall Hddl Hs Hp. eexists _, _.
  split; [by eapply dependencies_parsed|]. split.
  - clear. induction tables as [|t tables IH]; [done|]. simpl.
    rewrite !length_app. pose proof (spec_dependency_warning_one t). lia.
  - intros entry Hin. apply list_elem_of_In, in_flat_map in Hin as (t & Ht & Hin).
    exists t. split; [by apply list_elem_of_In|].
    unfold spec_warnings_of in Hin. case_bool_decide; simpl in Hin; [|done].
    by destruct Hin as [<-|[]].
Qed.

Lemma dependencies_conservation_witness :
  ∃ ds log,
    dependencies (fun _ => Ok ["foo"; "s1.bar"; "a.b.c"]) example_view = (Ok ds, log) ∧
    length ds + length log = 3 ∧
    ∀ entry, entry ∈ log ->
      ∃ table, table ∈ ["foo"; "s1.bar"; "a.b.c"] ∧
               entry = LogWarning (warning_msg table).
Proof.
  refine (dependencies_conservation (fun _ => Ok ["foo"; "s1.bar"; "a.b.c"])
            example_view _ "SELECT * FROM (foo), s1.bar, a.b.c" _
            eq_refl eq_refl _ eq_refl).
  discriminate.
Defined.

(** X9.  The identity string of a dependency determines it: for every
    dependency the property returns, on any table and with any parser,
    splitting its [uid] on the dot gives back exactly its schema and its
    name, so two returned dependencies with the same [uid] are equal. *)
Theorem dependency_uid_split
    (Parser_tables : string -> result (list string))
    (m : MetadataTable) (ds : list Dependency) (log : list log_entry) :
  dependencies Parser_tables m = (Ok ds, log) ->
  (∀ d, d ∈ ds -> split "."%char (uid d) = [dep_schema d; dep_name d]) ∧
  (∀ d d', d ∈ ds -> d' ∈ ds -> uid d = uid d' -> d = d').
Proof.
  intros H.
  assert (Hsplit : ∀ d, d ∈ ds ->
            split "."%char (uid d) = [dep_schema d; dep_name d]).
  { intros d Hd. apply dependencies_Ok_inv in H as [->|[tables ->]].
    - by apply elem_of_nil in Hd.
    - apply list_elem_of_In, in_flat_map in Hd as (t & _ & Hd).
      by apply spec_dependency_uid_split with t, list_elem_of_In. }
  split; [done|]. intros d d' Hd Hd' Huid.
  pose proof (Hsplit d Hd) as H1. pose proof (Hsplit d' Hd') as H2.
  rewrite Huid, H2 in H1. destruct d, d'. simpl in H1. congruence.
Qed.

Lemma dependency_uid_split_witness :
  split "."%char (uid {| dep_name := "bar"; dep_schema := "s1" |}) = ["s1"; "bar"].
Proof.
  refine (proj1 (dependency_uid_split (fun _ => Ok ["foo"; "s1.bar"; "a.b.c"])
                   example_view _ _ eq_refl)
            {| dep_name := "bar"; dep_schema := "s1" |} _).
  right. left.
Defined.

(** X10.  When the parser returns identifiers for a non-empty view
    definition, the identity strings of the returned dependencies are, in
    order: the identifier itself for a schema-qualified identifier,
    ["public."] followed by the identifier for an unqualified one, and
    nothing for an identifier with more than two components. *)
Theorem dependency_uid_of_identifier
    (Parser_tables : string -> result (list string))
    (m : MetadataTable) (all : instance) (s : string) (tables : list string) :
  t_all m = Some all ->
  getattr all "view_ddl" = Ok (PStr s) ->
  s ≠ EmptyString ->
  Parser_tables (remove_char ")" (remove_char "(" s)) = Ok tables ->
  ∃ ds log,
    dependencies Parser_tables m = (Ok ds, log) ∧
    uid <$> ds = flat_map identifier_uid tables.
Proof.
  intros Hall Hddl Hs Hp. eexists _, _.
  split; [by eapply dependencies_parsed|].
  clear. induction tables as [|t tables IH]; [done|]. simpl.
  by rewrite fmap_app, IH, spec_dependency_identifier_uid.
Qed.

Lemma dependency_uid_of_identifier_witness :
  ∃ ds log,
    dependencies (fun _ => Ok ["foo"; "s1.bar"; "a.b.c"]) example_view = (Ok ds, log) ∧
    uid <$> ds = flat_map identifier_uid ["foo"; "s1.bar"; "a.b.c"].
Proof.
  refine (dependency_uid_of_identifier (fun _ => Ok ["foo"; "s1.bar"; "a.b.c"])
            example_view _ "SELECT * FROM (foo), s1.bar, a.b.c" _
            eq_refl eq_refl _ eq_refl).
  discriminate.
Defined.

(** ** Published mappings and record attributes *)

Lemma getattr_Ok_elem_of (obj : instance) (k : string) (v : pyval) :
  getattr obj k = Ok v -> k ∈ obj.*1.
Proof.
  induction obj as [|[f x] obj IH]; simpl; [done|].
  destruct (String.eqb f k) eqn:E.
  - apply String.eqb_eq in E as ->. intros _. by left.
  - intros H. right. by apply IH.
Qed.

Lemma asdict_lookup_getattr_acc (obj : instance) (acc : gmap string pyval)
    (k : string) (v : pyval) :
  NoDup obj.*1 ->
  foldl (fun d fv => <[fv.1 := fv.2]> d) acc obj !! k = Some v ↔
  getattr obj k = Ok v ∨ ((k ∉ obj.*1) ∧ acc !! k = Some v).
Proof.
  revert acc. induction obj as [|[f x] obj IH]; intros acc Hnd.
  - simpl. split; [intros H; right; split; [apply not_elem_of_nil | done]|].
    by intros [?|[_ ?]].
  - rewrite fmap_cons in Hnd. apply NoDup_cons in Hnd as [Hf Hnd].
    cbn [foldl getattr fst snd]. rewrite (IH _ Hnd). rewrite fmap_cons. cbn [fst].
    destruct (String.eqb f k) eqn:E.
    + apply String.eqb_eq in E as ->. rewrite lookup_insert_eq. split.
      * intros [Hget|[_ [= ->]]]; [|by left].
        by apply getattr_Ok_elem_of in Hget.
      * intros [[= ->]|[Hk _]]; [by right | exfalso; apply Hk; by left].
    + apply String.eqb_neq in E. rewrite lookup_insert_ne by done.
      rewrite not_elem_of_cons. split.
      * intros [?|[? ?]]; [by left | right; split; [split|]; done || congruence].
      * intros [?|[[? ?] ?]]; [by left | by right].
Qed.

(** For a record whose field names are pairwise distinct, the dictionary
    built by [asdict] and attribute access agree. *)
Lemma asdict_lookup_getattr (obj : instance) (k : string) (v : pyval) :
  NoDup obj.*1 -> asdict obj !! k = Some v ↔ getattr obj k = Ok v.
Proof.
  intros Hnd. unfold asdict. rewrite asdict_lookup_getattr_acc by done.
  rewrite lookup_empty. split; [by intros [?|[_ ?]] | by left].
Qed.

Lemma construct_fields (cls : dataclass) (row : tuple) (r : instance) :
  construct cls row = Ok r -> r.*1 = cls.
Proof.
  unfold construct. case_bool_decide; [|done]. intros [= <-].
  apply fst_zip. lia.
Qed.

(** X11.  The mapping the projector hands to the [MetadataExtension]
    constructor holds the attribute values of the slot.  For a slot whose
    field names are pairwise distinct, and no exclusion set or an
    exclusion set within the field names, the call appends what the
    constructor builds from the schema identifier and a mapping (or lets
    the constructor's exception through, the list unchanged), and a key
    has the value [v] in that mapping exactly when the slot's attribute of
    that name is [v], [v] is not [None], and the key is not excluded. *)
Theorem append_metadata_extension_attributes {Extension : Type}
    (MetadataExtension : string -> gmap string pyval -> result Extension)
    (l : list Extension) (url : string) (obj : instance) :
  NoDup obj.*1 ->
  (∃ mapping,
     _append_metadata_extension MetadataExtension l url (Some obj) None =
       appended_with MetadataExtension l url mapping ∧
     ∀ k v, mapping !! k = Some v ↔ getattr obj k = Ok v ∧ v ≠ PNone) ∧
  (∀ keys : gset string,
     (∀ k, k ∈ keys -> k ∈ obj.*1) ->
     ∃ mapping,
       _append_metadata_extension MetadataExtension l url (Some obj) (Some keys) =
         appended_with MetadataExtension l url mapping ∧
       ∀ k v, mapping !! k = Some v ↔
              getattr obj k = Ok v ∧ v ≠ PNone ∧ k ∉ keys).
Proof.
  intros Hnd. split.
  - eexists. split; [apply append_no_exclusion|].
    intros k v. rewrite map_lookup_filter_Some, asdict_lookup_getattr by done.
    done.
  - intros keys Hsub. eexists. split; [by apply append_present|].
    intros k v. rewrite !map_lookup_filter_Some, asdict_lookup_getattr by done.
    simpl. tauto.
Qed.

Lemma append_metadata_extension_attributes_witness :
  ∃ mapping,
    _append_metadata_extension example_MetadataExtension [] "schema"
      (Some [("a", PInt 1); ("b", PNone); ("c", PStr "x")]) (Some {["c"]}) =
      appended_with example_MetadataExtension [] "schema" mapping ∧
    ∀ k v, mapping !! k = Some v ↔
           getattr [("a", PInt 1); ("b", PNone); ("c", PStr "x")] k = Ok v ∧
           v ≠ PNone ∧ k ∉ ({["c"]} : gset string).
Proof.
  refine (proj2 (append_metadata_extension_attributes example_MetadataExtension
                   [] "schema" [("a", PInt 1); ("b", PNone); ("c", PStr "x")] _)
            {["c"]} _).
  - apply (bool_decide_unpack _). vm_compute. exact I.
  - intros k Hk. apply elem_of_singleton in Hk. rewrite Hk.
    apply (bool_decide_unpack _). vm_compute. exact I.
Defined.

(** X12.  On every schema the schema aligner returns, [odd_metadata]
    returns: it never raises, whatever the excluded keys, field names or
    not.  With pairwise distinct base field names its mapping holds the
    attributes of the base record that are not excluded, [None] values
    included; and when the excluded keys are all field names, the mapping
    the projector hands to the [MetadataExtension] constructor for the
    base slot with the same exclusion set is that mapping without its
    [None] values. *)
Theorem odd_metadata_of_aligned_schema {Extension : Type}
    (MetadataExtension : string -> gmap string pyval -> result Extension)
    (M : models) (excluded : gset string)
    (base rs ex : list tuple) (items : list MetadataSchema) (m : MetadataSchema) :
  NoDup (MetadataSchemaBase M) ->
  MetadataSchemas M base rs ex = Ok items ->
  m ∈ items ->
  ∃ b mapping,
    s_base m = Some b ∧
    odd_metadata excluded m = Ok mapping ∧
    (∀ k v, mapping !! k = Some v ↔ getattr b k = Ok v ∧ k ∉ excluded) ∧
    ((∀ k, k ∈ excluded -> k ∈ MetadataSchemaBase M) ->
     ∀ l url,
       _append_metadata_extension MetadataExtension l url (s_base m) (Some excluded) =
         appended_with MetadataExtension l url
           (filter (fun kv => kv.2 ≠ PNone) mapping)).
Proof.
  intros Hnd H Hm. apply MetadataSchemas_from_base in H.
  destruct (Forall2_elem_of_r _ _ _ _ H Hm) as (row & _ & b & Hb & Hbase & _).
  pose proof (construct_fields _ _ _ Hb) as Hfields.
  exists b, (omit (asdict b) excluded). split; [done|].
  split; [unfold odd_metadata; by rewrite Hbase|]. split.
  - intros k v. unfold omit.
    rewrite map_lookup_filter_Some, asdict_lookup_getattr by (by rewrite Hfields).
    done.
  - intros Hsub l url. rewrite Hbase. apply append_present.
    by rewrite Hfields.
Qed.

Lemma odd_metadata_of_aligned_schema_witness :
  ∃ b mapping,
    Some [("database_name", PStr "db"); ("schema_name", PStr "s");
          ("schema_owner", PNone)] = Some b ∧
    odd_metadata {["database_name"; "not_a_field"]}
      {| s_database_name := PStr "db"; s_schema_name := PStr "s";
         s_base := Some [("database_name", PStr "db"); ("schema_name", PStr "s");
                         ("schema_owner", PNone)];
         s_redshift := None; s_external := None |} = Ok mapping ∧
    ∀ k v, mapping !! k = Some v ↔
           getattr b k = Ok v ∧
           k ∉ ({["database_name"; "not_a_field"]} : gset string).
Proof.
  edestruct (odd_metadata_of_aligned_schema example_MetadataExtension example_models
               {["database_name"; "not_a_field"]} example_schemas_base [] [])
    with (m := {| s_database_name := PStr "db"; s_schema_name := PStr "s";
                  s_base := Some [("database_name", PStr "db");
                                  ("schema_name", PStr "s");
                                  ("schema_owner", PNone)];
                  s_redshift := None; s_external := None |})
    as (b & mapping & Hb & Hodd & Hmap & _).
  - apply (bool_decide_unpack _). vm_compute. exact I.
  - reflexivity.
  - right. left.
  - exists b, mapping. split; [exact Hb|]. split; [exact Hodd | exact Hmap].
Defined.

(** ** How much of the inputs a run reads *)

Lemma attach_take (cls : dataclass) (rows : list tuple) (n index : nat)
    (key : list (string * pyval)) :
  index < n -> attach cls (take n rows) index key = attach cls rows index key.
Proof. intros Hlt. unfold attach. by rewrite lookup_take_lt. Qed.

Lemma cursor_step_le cls rows index index' slot :
  cursor_step cls rows index index' slot -> index' ≤ S index.
Proof. intros [[_ ->]|(? & ? & _ & _ & _ & ->)]; lia. Qed.

Lemma for_each_ext_inv {A St} (body body' : St -> A -> result St)
    (I : nat -> St -> Prop) :
  (∀ k s x, I (S k) s ->
     body' s x = body s x ∧ ∀ s1, body s x = Ok s1 -> I k s1) ->
  ∀ l s, I (length l) s -> for_each body' l s = for_each body l s.
Proof.
  intros Hstep l. induction l as [|x l IH]; intros s HI; [done|]. simpl in *.
  destruct (Hstep _ _ x HI) as [-> Hnext].
  destruct (body s x) as [s1|e] eqn:Hb; [|done]. simpl. apply IH. by apply Hnext.
Qed.

Section AlignersReads.

Variable M : models.

Lemma schemas_body_take n rs ex st row :
  ss_redshift_index st < n -> ss_external_index st < n ->
  schemas_body M (take n rs) (take n ex) st row = schemas_body M rs ex st row.
Proof.
  intros H1 H2. unfold schemas_body.
  destruct (construct (MetadataSchemaBase M) row) as [b|]; [|done]. simpl.
  destruct (getattr b "database_name") as [v1|]; [|done]. simpl.
  destruct (getattr b "schema_name") as [v2|]; [|done]. simpl.
  by rewrite !attach_take by done.
Qed.

Lemma tables_body_take n al rs ex inf st row :
  ts_all_index st < n -> ts_redshift_index st < n ->
  ts_external_index st < n -> ts_info_index st < n ->
  tables_body M (take n al) (take n rs) (take n ex) (take n inf) st row =
  tables_body M al rs ex inf st row.
Proof.
  intros H1 H2 H3 H4. unfold tables_body.
  destruct (construct (MetadataTableBase M) row) as [b|]; [|done]. simpl.
  destruct (getattr b "table_catalog") as [v1|]; [|done]. simpl.
  destruct (getattr b "table_schema") as [v2|]; [|done]. simpl.
  destruct (getattr b "table_name") as [v3|]; [|done]. simpl.
  by rewrite !attach_take by done.
Qed.

Lemma columns_body_take n rs ex st row :
  cs_redshift_index st < n -> cs_external_index st < n ->
  columns_body M (take n rs) (take n ex) st row = columns_body M rs ex st row.
Proof.
  intros H1 H2. unfold columns_body.
  destruct (construct (MetadataColumnBase M) row) as [b|]; [|done]. simpl.
  destruct (getattr b "database_name") as [v1|]; [|done]. simpl.
  destruct (getattr b "schema_name") as [v2|]; [|done]. simpl.
  destruct (getattr b "table_name") as [v3|]; [|done]. simpl.
  destruct (getattr b "column_name") as [v4|]; [|done]. simpl.
  destruct (getattr b "ordinal_position") as [v5|]; [|done]. simpl.
  by rewrite !attach_take by done.
Qed.

End AlignersReads.

(** X13.  A run reads at most as many rows of each auxiliary list as the
    base list has rows.  The outcome of each aligner, output or
    exception, is the outcome on the auxiliary lists cut to the length of
    the base list: rows beyond it, well formed or not, are never
    decoded. *)
Theorem aligner_reads_bounded_prefix (M : models) :
  (∀ base rs ex,
     MetadataSchemas M base rs ex =
     MetadataSchemas M base (take (length base) rs) (take (length base) ex)) ∧
  (∀ base al rs ex inf,
     MetadataTables M base al rs ex inf =
     MetadataTables M base (take (length base) al) (take (length base) rs)
       (take (length base) ex) (take (length base) inf)) ∧
  (∀ base rs ex,
     MetadataColumns M base rs ex =
     MetadataColumns M base (take (length base) rs) (take (length base) ex)).
Proof.
  split; [|split].
  - intros base rs ex. unfold MetadataSchemas, schemas_loop. f_equal. symmetry.
    apply (for_each_ext_inv _ _
             (fun k s => ss_redshift_index s + k ≤ length base ∧
                         ss_external_index s + k ≤ length base));
      [|simpl; lia].
    intros k s x [H1 H2]. split; [apply schemas_body_take; lia|].
    intros s1 (m & _ & _ & Hc1%cursor_step_le & Hc2%cursor_step_le)%schemas_body_inv.
    lia.
  - intros base al rs ex inf. unfold MetadataTables, tables_loop. f_equal. symmetry.
    apply (for_each_ext_inv _ _
             (fun k s => ts_all_index s + k ≤ length base ∧
                         ts_redshift_index s + k ≤ length base ∧
                         ts_external_index s + k ≤ length base ∧
                         ts_info_index s + k ≤ length base));
      [|simpl; lia].
    intros k s x (H1 & H2 & H3 & H4). split; [apply tables_body_take; lia|].
    intros s1 (m & _ & _ & Hc1%cursor_step_le & Hc2%cursor_step_le
                 & Hc3%cursor_step_le & Hc4%cursor_step_le)%tables_body_inv.
    lia.
  - intros base rs ex. unfold MetadataColumns, columns_loop. f_equal. symmetry.
    apply (for_each_ext_inv _ _
             (fun k s => cs_redshift_index s + k ≤ length base ∧
                         cs_external_index s + k ≤ length base));
      [|simpl; lia].
    intros k s x [H1 H2]. split; [apply columns_body_take; lia|].
    intros s1 (m & _ & _ & Hc1%cursor_step_le & Hc2%cursor_step_le)%columns_body_inv.
    lia.
Qed.

(** ** Base rows that do not decode *)

Lemma Forall2_elem_of_l {A B} (P : A -> B -> Prop) (l : list A) (k : list B) (x : A) :
  Forall2 P l k -> x ∈ l -> ∃ y, y ∈ k ∧ P x y.
Proof.
  intros HF [i Hi]%list_elem_of_lookup_1.
  destruct (Forall2_lookup_l _ _ _ _ _ HF Hi) as (y & Hy & HP).
  exists y. split; [by eapply list_elem_of_lookup_2 | done].
Qed.

(** X14.  A base row that does not decode is never skipped: if some row
    of the base list, wherever it stands, is rejected by the constructor
    of the base class, the aligner returns no output at all and raises a
    decoding error, whatever the other rows and the auxiliary lists
    are. *)
Theorem aligner_rejects_malformed_base_row (M : models) :
  (∀ base rs ex row e,
     row ∈ base -> construct (MetadataSchemaBase M) row = Raise e ->
     ∃ e', MetadataSchemas M base rs ex = Raise e' ∧ decoding_error e') ∧
  (∀ base al rs ex inf row e,
     row ∈ base -> construct (MetadataTableBase M) row = Raise e ->
     ∃ e', MetadataTables M base al rs ex inf = Raise e' ∧ decoding_error e') ∧
  (∀ base rs ex row e,
     row ∈ base -> construct (MetadataColumnBase M) row = Raise e ->
     ∃ e', MetadataColumns M base rs ex = Raise e' ∧ decoding_error e').
Proof.
  split; [|split].
  - intros base rs ex row e Hrow Hbad.
    destruct (MetadataSchemas M base rs ex) as [items|e'] eqn:H.
    + apply MetadataSchemas_from_base in H.
      destruct (Forall2_elem_of_l _ _ _ _ H Hrow) as (m & _ & b & Hb & _). congruence.
    + exists e'. split; [done|]. revert H. unfold MetadataSchemas, schemas_loop.
      intros [H|(? & _ & H)]%bind_Raise_inv; [|done].
      eapply for_each_Raise; [|exact H]. intros ? ? ?. apply schemas_body_Raise.
  - intros base al rs ex inf row e Hrow Hbad.
    destruct (MetadataTables M base al rs ex inf) as [items|e'] eqn:H.
    + apply MetadataTables_from_base in H.
      destruct (Forall2_elem_of_l _ _ _ _ H Hrow) as (m & _ & b & Hb & _). congruence.
    + exists e'. split; [done|]. revert H. unfold MetadataTables, tables_loop.
      intros [H|(? & _ & H)]%bind_Raise_inv; [|done].
      eapply for_each_Raise; [|exact H]. intros ? ? ?. apply tables_body_Raise.
  - intros base rs ex row e Hrow Hbad.
    destruct (MetadataColumns M base rs ex) as [items|e'] eqn:H.
    + apply MetadataColumns_from_base in H.
      destruct (Forall2_elem_of_l _ _ _ _ H Hrow) as (m & _ & b & Hb & _). congruence.
    + exists e'. split; [done|]. revert H. unfold MetadataColumns, columns_loop.
      intros [H|(? & _ & H)]%bind_Raise_inv; [|done].
      eapply for_each_Raise; [|exact H]. intros ? ? ?. apply columns_body_Raise.
Qed.

Lemma aligner_rejects_malformed_base_row_witness :
  ∃ e', MetadataSchemas example_models
          [[PStr "db"; PStr "public"; PInt 100]; [PStr "db"; PStr "s"]] [] [] =
        Raise e' ∧ decoding_error e'.
Proof.
  refine (proj1 (aligner_rejects_malformed_base_row example_models)
            [[PStr "db"; PStr "public"; PInt 100]; [PStr "db"; PStr "s"]] [] []
            [PStr "db"; PStr "s"] TypeError _ eq_refl).
  right. left.
Defined.

(** ** Alignment of exact subsets, row by row *)

Lemma slot_run_attached_row {B} cls rows (probe : B -> list (string * pyval))
    (slot : B -> option instance) (items : list B) (m : B) (r : instance) :
  slot_run cls rows probe slot items -> m ∈ items -> slot m = Some r ->
  ∃ j row, rows !! j = Some row ∧ construct cls row = Ok r ∧
           row_key cls (probe m).*1 row = Ok (canon <$> (probe m).*2).
Proof.
  intros [HF HK] Hm Hs.
  assert (Hr : r ∈ omap slot items) by (apply list_elem_of_omap; eauto).
  apply list_elem_of_lookup_1 in Hr as [j Hj].
  destruct (Forall2_lookup_r _ _ _ _ _ HF Hj) as (row & Hrow & Hdec).
  apply lookup_take_Some in Hrow as [Hrow _].
  rewrite Forall_forall in HK.
  destruct (keys_match_true _ _ (HK m Hm r Hs)) as (vs & Hvs & Hc).
  exists j, row. split; [done|]. split; [done|].
  unfold row_key. rewrite Hdec. simpl. rewrite Hvs. simpl. by rewrite Hc.
Qed.

Lemma row_keys_lookup (cls : dataclass) (names : list string) (rows : list tuple)
    (i : nat) (row : tuple) (k : list pyval) :
  rows !! i = Some row -> row_keys cls names rows !! i = Some k ->
  is_ok (row_key cls names row) = true -> row_key cls names row = Ok k.
Proof.
  intros Hrow Hk Hok. unfold row_keys in Hk. rewrite list_lookup_fmap, Hrow in Hk.
  simpl in Hk. destruct (row_key cls names row); [by simplify_eq | done].
Qed.

Lemma wf_rows_is_ok (cls : dataclass) (names : list string) (rows : list tuple)
    (i : nat) (row : tuple) :
  wf_rows cls names rows = true -> rows !! i = Some row ->
  is_ok (row_key cls names row) = true.
Proof.
  intros Hwf Hrow. destruct (wf_rows_lookup _ _ _ _ _ Hwf Hrow) as (? & ? & _ & _ & ->).
  done.
Qed.

Lemma column_fields_key_is_ok (cls : dataclass) (rows : list tuple) (i : nat)
    (row : tuple) :
  wf_rows cls column_base_fields rows = true -> rows !! i = Some row ->
  is_ok (row_key cls column_base_key row) = true.
Proof.
  intros Hwf Hrow.
  destruct (wf_rows_lookup _ _ _ _ _ Hwf Hrow) as (r & vs & Hr & Hvs & _).
  inv_getattrs Hvs. unfold row_key. rewrite Hr. simpl.
  by rewrite Hv, Hv0, Hv1, Hv3.
Qed.

Lemma aligned_slot_agrees {B} cls (names : list string) rows
    (probe : B -> list (string * pyval)) (key : B -> list pyval)
    (slot : B -> option instance) (items : list B) (kb : list (list pyval))
    (i : nat) (m : B) :
  (∀ m, (probe m).*1 = names) -> (∀ m, canon <$> (probe m).*2 = key m) ->
  slot_run cls rows probe slot items ->
  key <$> items = kb ->
  (populated ∘ slot) <$> items = greedy kb (row_keys cls names rows) ->
  NoDup kb -> row_keys cls names rows `sublist_of` kb ->
  items !! i = Some m ->
  slot_agrees cls names rows key slot m.
Proof.
  intros Hnames Hkey Hrun Hk Hg Hnd Hsub Hm. split.
  - by apply (greedy_slot_matches key slot items kb _ Hk Hg Hnd Hsub i m).
  - intros r Hr.
    destruct (slot_run_attached_row _ _ _ _ _ m r Hrun) as (j & row & ? & ? & Hrk);
      [by eapply list_elem_of_lookup_2 | done |].
    rewrite Hnames, Hkey in Hrk. eauto.
Qed.

(** C1, as amended.  When the rows decode, the base identity keys are
    pairwise distinct and the keys of an auxiliary list are a subsequence
    of the base keys (an exact subset, in the base order), each aligner
    returns one merged object per base row, in order, built from that
    row and carrying its identity key; the auxiliary slot of the object
    is populated exactly when the key of its base row occurs in the
    auxiliary list, and then it holds the decoded auxiliary row of that
    key; it is [None] for every other base row.  Stated for every slot
    of the three aligners. *)
Theorem aligner_subset_slots (M : models) :
  (∀ base rs ex,
     wf_rows (MetadataSchemaBase M) schema_base_key base = true ->
     wf_rows (MetadataSchemaRedshift M) schema_redshift_key rs = true ->
     wf_rows (MetadataSchemaExternal M) schema_external_key ex = true ->
     NoDup (row_keys (MetadataSchemaBase M) schema_base_key base) ->
     ∃ items,
       MetadataSchemas M base rs ex = Ok items ∧
       length items = length base ∧
       ∀ i row, base !! i = Some row ->
         ∃ m, items !! i = Some m ∧
              schema_from_base M row m ∧
              row_key (MetadataSchemaBase M) schema_base_key row = Ok (schema_key m) ∧
              (row_keys (MetadataSchemaRedshift M) schema_redshift_key rs
                 `sublist_of` row_keys (MetadataSchemaBase M) schema_base_key base ->
               slot_agrees (MetadataSchemaRedshift M) schema_redshift_key rs
                 schema_key s_redshift m) ∧
              (row_keys (MetadataSchemaExternal M) schema_external_key ex
                 `sublist_of` row_keys (MetadataSchemaBase M) schema_base_key base ->
               slot_agrees (MetadataSchemaExternal M) schema_external_key ex
                 schema_key s_external m)) ∧
  (∀ base al rs ex inf,
     wf_rows (MetadataTableBase M) table_base_key base = true ->
     wf_rows (MetadataTableAll M) table_all_key al = true ->
     wf_rows (MetadataTableRedshift M) table_redshift_key rs = true ->
     wf_rows (MetadataTableExternal M) table_external_key ex = true ->
     wf_rows (MetadataTableInfo M) table_info_key inf = true ->
     NoDup (row_keys (MetadataTableBase M) table_base_key base) ->
     ∃ items,
       MetadataTables M base al rs ex inf = Ok items ∧
       length items = length base ∧
       ∀ i row, base !! i = Some row ->
         ∃ m, items !! i = Some m ∧
              table_from_base M row m ∧
              row_key (MetadataTableBase M) table_base_key row = Ok (table_key m) ∧
              (row_keys (MetadataTableAll M) table_all_key al
                 `sublist_of` row_keys (MetadataTableBase M) table_base_key base ->
               slot_agrees (MetadataTableAll M) table_all_key al table_key t_all m) ∧
              (row_keys (MetadataTableRedshift M) table_redshift_key rs
                 `sublist_of` row_keys (MetadataTableBase M) table_base_key base ->
               slot_agrees (MetadataTableRedshift M) table_redshift_key rs
                 table_key t_redshift m) ∧
              (row_keys (MetadataTableExternal M) table_external_key ex
                 `sublist_of` row_keys (MetadataTableBase M) table_base_key base ->
               slot_agrees (MetadataTableExternal M) table_external_key ex
                 table_key t_external m) ∧
              (row_keys (MetadataTableInfo M) table_info_key inf
                 `sublist_of` row_keys (MetadataTableBase M) table_base_key base ->
               slot_agrees (MetadataTableInfo M) table_info_key inf
                 table_key t_info m)) ∧
  (∀ base rs ex,
     wf_rows (MetadataColumnBase M) column_base_fields base = true ->
     wf_rows (MetadataColumnRedshift M) column_redshift_key rs = true ->
     wf_rows (MetadataColumnExternal M) column_external_key ex = true ->
     NoDup (row_keys (MetadataColumnBase M) column_base_key base) ->
     ∃ items,
       MetadataColumns M base rs ex = Ok items ∧
       length items = length base ∧
       ∀ i row, base !! i = Some row ->
         ∃ m, items !! i = Some m ∧
              column_from_base M row m ∧
              row_key (MetadataColumnBase M) column_base_key row = Ok (column_key m) ∧
              (row_keys (MetadataColumnRedshift M) column_redshift_key rs
                 `sublist_of` row_keys (MetadataColumnBase M) column_base_key base ->
               slot_agrees (MetadataColumnRedshift M) column_redshift_key rs
                 column_key c_redshift m) ∧
              (row_keys (MetadataColumnExternal M) column_external_key ex
                 `sublist_of` row_keys (MetadataColumnBase M) column_base_key base ->
               slot_agrees (MetadataColumnExternal M) column_external_key ex
                 column_key c_external m)).
Proof.
  split; [|split].
  - intros base rs ex Hb Hrs Hex Hnd.
    destruct (MetadataSchemas_wf M base rs ex Hb Hrs Hex) as (items & Hok & Hk & H1 & H2).
    pose proof (MetadataSchemas_from_base M _ _ _ _ Hok) as HF.
    destruct (MetadataSchemas_slot_runs M _ _ _ _ Hok) as (R1 & R2).
    exists items. split; [done|]. split; [symmetry; by eapply Forall2_length|].
    intros i row Hrow.
    destruct (Forall2_lookup_l _ _ _ _ _ HF Hrow) as (m & Hm & Hfrom).
    exists m. split; [done|]. split; [done|]. split.
    { apply (row_keys_lookup _ _ base i); [done| |by eapply wf_rows_is_ok].
      by rewrite <- Hk, list_lookup_fmap, Hm. }
    split; intros Hsub.
    + by eapply (aligned_slot_agrees _ _ _ schema_redshift_probe).
    + by eapply (aligned_slot_agrees _ _ _ schema_external_probe).
  - intros base al rs ex inf Hb Hal Hrs Hex Hinf Hnd.
    destruct (MetadataTables_wf M base al rs ex inf Hb Hal Hrs Hex Hinf)
      as (items & Hok & Hk & H1 & H2 & H3 & H4).
    pose proof (MetadataTables_from_base M _ _ _ _ _ _ Hok) as HF.
    destruct (MetadataTables_slot_runs M _ _ _ _ _ _ Hok) as (R1 & R2 & R3 & R4).
    exists items. split; [done|]. split; [symmetry; by eapply Forall2_length|].
    intros i row Hrow.
    destruct (Forall2_lookup_l _ _ _ _ _ HF Hrow) as (m & Hm & Hfrom).
    exists m. split; [done|]. split; [done|]. split.
    { apply (row_keys_lookup _ _ base i); [done| |by eapply wf_rows_is_ok].
      by rewrite <- Hk, list_lookup_fmap, Hm. }
    split; [|split; [|split]]; intros Hsub.
    + by eapply (aligned_slot_agrees _ _ _ table_all_probe).
    + by eapply (aligned_slot_agrees _ _ _ table_redshift_probe).
    + by eapply (aligned_slot_agrees _ _ _ table_external_probe).
    + by eapply (aligned_slot_agrees _ _ _ table_info_probe).
  - intros base rs ex Hb Hrs Hex Hnd.
    destruct (MetadataColumns_wf M base rs ex Hb Hrs Hex) as (items & Hok & Hk & H1 & H2).
    pose proof (MetadataColumns_from_base M _ _ _ _ Hok) as HF.
    destruct (MetadataColumns_slot_runs M _ _ _ _ Hok) as (R1 & R2).
    exists items. split; [done|]. split; [symmetry; by eapply Forall2_length|].
    intros i row Hrow.
    destruct (Forall2_lookup_l _ _ _ _ _ HF Hrow) as (m & Hm & Hfrom).
    exists m. split; [done|]. split; [done|]. split.
    { apply (row_keys_lookup _ _ base i); [done| |by eapply column_fields_key_is_ok].
      by rewrite <- Hk, list_lookup_fmap, Hm. }
    split; intros Hsub.
    + by eapply (aligned_slot_agrees _ _ _ column_redshift_probe).
    + by eapply (aligned_slot_agrees _ _ _ column_external_probe).
Qed.

Lemma aligner_subset_slots_witness :
  ∃ items,
    MetadataTables example_models
      [[PStr "db"; PStr "s"; PStr "t1"; PStr "TABLE"];
       [PStr "db"; PStr "s"; PStr "t2"; PStr "VIEW"]]
      []
      [[PStr "db"; PStr "s"; PStr "t2"; PStr "admin"]]
      [] [] = Ok items ∧
    length items = 2 ∧
    ∃ m, items !! 1 = Some m ∧
         slot_agrees (MetadataTableRedshift example_models) table_redshift_key
           [[PStr "db"; PStr "s"; PStr "t2"; PStr "admin"]] table_key t_redshift m.
Proof.
  destruct (proj1 (proj2 (aligner_subset_slots example_models))
              [[PStr "db"; PStr "s"; PStr "t1"; PStr "TABLE"];
               [PStr "db"; PStr "s"; PStr "t2"; PStr "VIEW"]]
              []
              [[PStr "db"; PStr "s"; PStr "t2"; PStr "admin"]]
              [] [] eq_refl eq_refl eq_refl eq_refl eq_refl)
    as (items & Hok & Hlen & Hrows).
  - apply (bool_decide_unpack _). vm_compute. exact I.
  - exists items. split; [exact Hok|]. split; [exact Hlen|].
    destruct (Hrows 1 [PStr "db"; PStr "s"; PStr "t2"; PStr "VIEW"] eq_refl)
      as (m & Hm & _ & _ & _ & Hrs & _).
    exists m. split; [exact Hm|]. apply Hrs.
    vm_compute. apply sublist_cons, sublist_skip, sublist_nil.
Defined.

(** With a repeated base identity key the slot of the second object
    stays empty although its key occurs in the auxiliary list, whose keys
    are a subsequence of the base keys. *)
Lemma aligner_repeated_base_key :
  wf_rows (MetadataTableBase example_models) table_base_key
    example_tables_repeated = true ∧
  wf_rows (MetadataTableRedshift example_models) table_redshift_key
    example_tables_redshift_once = true ∧
  row_keys (MetadataTableRedshift example_models) table_redshift_key
    example_tables_redshift_once
    `sublist_of`
    row_keys (MetadataTableBase example_models) table_base_key
      example_tables_repeated ∧
  ∃ items m,
    MetadataTables example_models example_tables_repeated []
      example_tables_redshift_once [] [] = Ok items ∧
    items !! 1 = Some m ∧
    table_key m ∈ row_keys (MetadataTableRedshift example_models) table_redshift_key
                    example_tables_redshift_once ∧
    t_redshift m = None.
Proof.
  split; [reflexivity|]. split; [reflexivity|]. split.
  - vm_compute. apply sublist_skip, sublist_cons, sublist_nil.
  - eexists _, _. split; [vm_compute; reflexivity|]. split; [reflexivity|].
    split; [|reflexivity]. vm_compute. left.
Qed.

(** ** Two calls in a row *)




Section AlignersOnHeapSpec.

Variable M : models.







End AlignersOnHeapSpec.




